(** * cherry: routing facade, request context and graceful server

  A shallow embedding of the Go package [cherry] (the router and
  middleware facade, the per-request [Context], and the server wrapper
  with graceful shutdown), with the properties its specification states.

  Conventions of the embedding:
  - a Go [string] is a [string] (a sequence of bytes);
  - a Go [int] is a [Z];
  - an [error] is a record carrying its message, [nil] is [None];
  - a Go slice is a view (array, length, capacity) on a backing array
    kept in a heap, so that [append] may write in place;
  - an interface ([http.ResponseWriter]) is a type class;
  - goroutines and channels are a labelled transition system whose
    steps are the statements of the source between blocking points. *)

From Stdlib Require Import ZArith String Ascii List Bool Lia.
From stdpp Require Import base option list gmap strings pretty.

Local Open Scope Z_scope.
Local Open Scope string_scope.
Local Open Scope list_scope.

(** ** Go primitives used by the package *)

Module Go.

(** [errors.New(msg)]; the method [Error()] returns [msg]. *)
Record error : Type := errors_New { Error : string }.

(** [strings.HasPrefix]. *)
Fixpoint HasPrefix (s prefix : string) {struct prefix} : bool :=
  match prefix with
  | EmptyString => true
  | String p prefix' =>
      match s with
      | EmptyString => false
      | String a s' => if Ascii.eqb a p then HasPrefix s' prefix' else false
      end
  end.

(** [strings.Contains(s, substr)]: [substr] occurs within [s]. *)
Fixpoint Contains (s substr : string) : bool :=
  HasPrefix s substr ||
  match s with
  | EmptyString => false
  | String _ s' => Contains s' substr
  end.

(** A Go [int] holds 64 bits; [int_wrap] is the value an [int] takes after
    an arithmetic operation whose mathematical result is [z]. *)
Definition int_wrap (z : Z) : Z := (z + 2 ^ 63) mod 2 ^ 64 - 2 ^ 63.

(** A channel of [struct{}] made with capacity one holds the number of
    buffered values, zero or one. *)
Definition chan_unit_cap : nat := 1.

(** [ch <- struct{}{}]: [None] when the buffer is full (the sender blocks). *)
Definition chan_send (ch : nat) : option nat :=
  if decide (ch < chan_unit_cap)%nat then Some (S ch) else None.

(** [<-ch]: [None] when the buffer is empty (the receiver blocks). *)
Definition chan_recv (ch : nat) : option nat :=
  match ch with
  | O => None
  | S n => Some n
  end.

(** [sync.WaitGroup.Add(delta)]: panics ([None]) if the counter would
    become negative. *)
Definition wg_Add (delta : Z) (counter : Z) : option Z :=
  if decide (counter + delta < 0) then None else Some (counter + delta).

(** [sync.WaitGroup.Done()] is [Add(-1)]. *)
Definition wg_Done (counter : Z) : option Z := wg_Add (-1) counter.

(** [sync.WaitGroup.Wait()] returns only when the counter is zero. *)
Definition wg_Wait_ready (counter : Z) : bool := bool_decide (counter = 0).

End Go.

Import Go.

(** ** server.go: the graceful server and its signal coordinator *)

Module Server.

Definition useClosedConn : string := "use of closed network connection".

(** [http.ConnState], the argument of the [ConnState] callback. *)
Inductive ConnState : Type :=
| StateNew | StateActive | StateIdle | StateHijacked | StateClosed.

(** [os.Signal] values: the five the code names and two it does not. *)
Inductive Signal : Type :=
| SIGHUP | SIGINT | SIGQUIT | SIGKILL | SIGUSR1 | SIGUSR2 | SIGTERM.

Global Instance Signal_eq_dec : EqDecision Signal.
Proof. solve_decision. Defined.

(** [type server struct]. Of the embedded [*http.Server] the one field
    the code writes while serving is kept: the keep-alive switch that
    [SetKeepAlivesEnabled] sets. [wg] is the counter of the
    [sync.WaitGroup]; [quit] and [fquit] are channels of capacity one. *)
Record server : Type := mk_server {
  KeepAlivesEnabled : bool;
  quit : nat;
  fquit : nat;
  wg : Z
}.

(** Where the goroutine running [serve] stands: at the [select], inside
    [s.wg.Wait()], or returned with its result. *)
Inductive main_pc : Type :=
| AtSelect
| AtWait
| Returned (err : error).

(** Where the goroutine running [closeNotify] stands: at [<-sig], blocked
    on a send to a full channel, or finished. *)
Inductive notify_pc : Type :=
| AwaitSignal
| BlockedSend
| NotifyDone.

(** The state shared by the goroutines that [serve] starts: the server,
    the listener [l] (open or closed), the channel [errChan] of
    capacity one, and whether [s.Server.Serve(l)] is still running. *)
Record proc : Type := mk_proc {
  srv : server;
  l_closed : bool;
  errChan : option error;
  main : main_pc;
  notifier : notify_pc;
  serving : bool
}.

(** A panic in any goroutine ends the whole process. *)
Inductive sys : Type :=
| Running (p : proc)
| Crashed (msg : string).

Definition set_wg (n : Z) (s : server) : server :=
  mk_server (KeepAlivesEnabled s) (quit s) (fquit s) n.
Definition set_quit (q : nat) (s : server) : server :=
  mk_server (KeepAlivesEnabled s) q (fquit s) (wg s).
Definition set_fquit (q : nat) (s : server) : server :=
  mk_server (KeepAlivesEnabled s) (quit s) q (wg s).
Definition SetKeepAlivesEnabled (v : bool) (s : server) : server :=
  mk_server v (quit s) (fquit s) (wg s).

Definition set_srv (s : server) (p : proc) : proc :=
  mk_proc s (l_closed p) (errChan p) (main p) (notifier p) (serving p).
Definition set_main (m : main_pc) (p : proc) : proc :=
  mk_proc (srv p) (l_closed p) (errChan p) m (notifier p) (serving p).
Definition set_errChan (c : option error) (p : proc) : proc :=
  mk_proc (srv p) (l_closed p) c (main p) (notifier p) (serving p).
Definition set_notifier (n : notify_pc) (p : proc) : proc :=
  mk_proc (srv p) (l_closed p) (errChan p) (main p) n (serving p).
Definition set_serving (b : bool) (p : proc) : proc :=
  mk_proc (srv p) (l_closed p) (errChan p) (main p) (notifier p) b.
(** [l.Close()] *)
Definition Close (p : proc) : proc :=
  mk_proc (srv p) true (errChan p) (main p) (notifier p) (serving p).

(** The callback [serve] installs as [s.Server.ConnState]: its effect on
    the counter of the wait group ([None]: [Done] panicked). *)
Definition ConnState_hook (state : ConnState) (counter : Z) : option Z :=
  match state with
  | StateNew => wg_Add 1 counter
  | StateClosed | StateHijacked => wg_Done counter
  | StateActive | StateIdle => Some counter
  end.

Definition stopped_gracefully : error := errors_New "server stopped gracefully".
Definition stopped_killed : error := errors_New "server stopped: process killed".

(** The three cases of the [select] in [serve]. *)
Inductive select_case : Type := CaseErrChan | CaseQuit | CaseFquit.

(** One iteration of [for { select { ... } }] taking case [c]; [None]
    when that case is not ready. The [quit] case runs up to the call of
    [s.wg.Wait()], where the goroutine may block. *)
Definition serve_select (c : select_case) (p : proc) : option proc :=
  match c with
  | CaseErrChan =>
      match errChan p with
      | Some err =>
          if Contains (Error err) useClosedConn
          then Some (set_errChan None p)
          else Some (set_main (Returned err) (set_errChan None p))
      | None => None
      end
  | CaseQuit =>
      match chan_recv (quit (srv p)) with
      | Some q =>
          Some (set_main AtWait
                  (set_srv (SetKeepAlivesEnabled false (set_quit q (srv p))) p))
      | None => None
      end
  | CaseFquit =>
      match chan_recv (fquit (srv p)) with
      | Some q =>
          Some (set_main (Returned stopped_killed) (set_srv (set_fquit q (srv p)) p))
      | None => None
      end
  end.

(** [s.wg.Wait()] returning, followed by the [return] of the [quit] case. *)
Definition serve_wait (p : proc) : option proc :=
  if wg_Wait_ready (wg (srv p))
  then Some (set_main (Returned stopped_gracefully) p)
  else None.

(** The signals [closeNotify] registers with [signal.Notify]. *)
Definition notified : list Signal := [SIGTERM; SIGQUIT; SIGUSR2; SIGINT].

Inductive notify_result : Type :=
| Sent (p : proc)
| SendBlocks (p : proc)
| Panics (msg : string)
| NoCase (p : proc).

(** The [switch sign] of [closeNotify], for the value [sign] read from
    the channel [sig]. *)
Definition closeNotify (sign : Signal) (p : proc) : notify_result :=
  match sign with
  | SIGTERM | SIGQUIT | SIGINT =>
      let p := Close p in
      match chan_send (quit (srv p)) with
      | Some q => Sent (set_srv (set_quit q (srv p)) p)
      | None => SendBlocks p
      end
  | SIGKILL =>
      let p := Close p in
      match chan_send (fquit (srv p)) with
      | Some q => Sent (set_srv (set_fquit q (srv p)) p)
      | None => SendBlocks p
      end
  | SIGUSR2 => Panics "USR2 => not implemented"
  | SIGHUP | SIGUSR1 => NoCase p
  end.

(** What can happen next: the [serve] goroutine takes a case of the
    [select] or leaves [Wait]; the HTTP engine reports a connection
    state; a signal is delivered to the process; [Serve] exits with [e]. *)
Inductive label : Type :=
| LSelect (c : select_case)
| LWait
| LConnState (state : ConnState)
| LSignal (sign : Signal)
| LServeExit (e : error).

Definition step (lbl : label) (s : sys) : option sys :=
  match s with
  | Crashed _ => None
  | Running p =>
      match lbl with
      | LSelect c =>
          match main p with
          | AtSelect => Running <$> serve_select c p
          | _ => None
          end
      | LWait =>
          match main p with
          | AtWait => Running <$> serve_wait p
          | _ => None
          end
      | LConnState state =>
          match ConnState_hook state (wg (srv p)) with
          | Some n => Some (Running (set_srv (set_wg n (srv p)) p))
          | None => Some (Crashed "sync: negative WaitGroup counter")
          end
      | LSignal sign =>
          match notifier p with
          | AwaitSignal =>
              if bool_decide (sign ∈ notified) then
                match closeNotify sign p with
                | Sent p' | NoCase p' => Some (Running (set_notifier NotifyDone p'))
                | SendBlocks p' => Some (Running (set_notifier BlockedSend p'))
                | Panics msg => Some (Crashed msg)
                end
              else None
          | _ => None
          end
      | LServeExit e =>
          if serving p
          then Some (Running (set_serving false (set_errChan (Some e) p)))
          else None
      end
  end.

Fixpoint run (tr : list label) (s : sys) : option sys :=
  match tr with
  | [] => Some s
  | lbl :: tr' =>
      match step lbl s with
      | Some s' => run tr' s'
      | None => None
      end
  end.

(** The state when [serve] reaches its loop: [c.serve] made both
    channels empty, the wait group is at zero, [closeNotify] and
    [Serve] were just started. [ka] is the keep-alive setting of the
    [*http.Server] the caller passed. *)
Definition init (ka : bool) : sys :=
  Running (mk_proc (mk_server ka 0 0 0) false None AtSelect AwaitSignal true).

Definition reachable (ka : bool) (s : sys) : Prop :=
  exists tr, run tr (init ka) = Some s.

(** The labels of the goroutine running [serve]; all others are moves of
    its environment. *)
Definition env_label (lbl : label) : bool :=
  match lbl with
  | LSelect _ | LWait => false
  | LConnState _ | LSignal _ | LServeExit _ => true
  end.

(** What holds in every state the server reaches: nothing ever sends on
    [fquit], and [quit] is empty for as long as [closeNotify] waits for
    its signal. *)
Definition chans_inv (s : sys) : Prop :=
  match s with
  | Running p =>
      fquit (srv p) = 0%nat /\
      (notifier p = AwaitSignal -> quit (srv p) = 0%nat)
  | Crashed _ => True
  end.

(** The result of [serve], once it has returned. *)
Definition result (s : sys) : option error :=
  match s with
  | Running p => match main p with Returned e => Some e | _ => None end
  | Crashed _ => None
  end.

End Server.

(** ** The standard library as the package uses it *)

Module Http.

Definition StatusOK : Z := 200.
Definition StatusMultipleChoices : Z := 300.
Definition StatusTemporaryRedirect : Z := 307.
Definition StatusInternalServerError : Z := 500.

(** The one-character string holding a double quote. *)
Definition dquote : string := String (ascii_of_nat 34) EmptyString.

(** The string holding a line feed. *)
Definition LF : string := String (ascii_of_nat 10) EmptyString.

(** [http.Header]: keys to lists of values. The keys the package uses are
    already in canonical form. *)
Abbreviation Header_map := (gmap string (list string)).

(** The fields of [*http.Request] the package reads. [URL_User] is
    [None] when [r.URL.User] is nil and otherwise holds what
    [r.URL.User.Username()] returns. *)
Record Request : Type := mk_Request {
  Method : string;
  RequestURI : string;
  Proto : string;
  Host : string;
  URL_Path : string;
  URL_User : option string
}.

(** [http.ResponseWriter]. [Header_Set k v] is [w.Header().Set(k, v)];
    [Write] returns the number of bytes written and an error. *)
Class ResponseWriter (W : Type) : Type := {
  Header : W -> Header_map;
  Header_Set : string -> string -> W -> W;
  WriteHeader : Z -> W -> W;
  Write : string -> W -> W * (Z * option error)
}.

(** [fmt.Fprintln(w, s)] for one string operand. *)
Definition Fprintln {W : Type} `{ResponseWriter W} (s : string) (w : W) : W :=
  fst (Write (s +:+ LF) w).

(** [http.Error(w, error, code)]. *)
Definition Error_ {W : Type} `{ResponseWriter W} (msg : string) (code : Z) (w : W) : W :=
  let w := Header_Set "Content-Type" "text/plain; charset=utf-8" w in
  let w := Header_Set "X-Content-Type-Options" "nosniff" w in
  let w := WriteHeader code w in
  Fprintln msg w.

Section Redirect.
Context {W : Type} `{ResponseWriter W}.

(** The three helpers of [net/http] that [http.Redirect] calls: the
    target made absolute against the path of the request and escaped,
    [htmlEscape] and [http.StatusText]. *)
Variable redirect_target : Request -> string -> string.
Variable htmlEscape : string -> string.
Variable StatusText : Z -> string.

(** [http.Redirect(w, r, url, code)]. *)
Definition Redirect (r : Request) (url : string) (code : Z) (w : W) : W :=
  let url := redirect_target r url in
  let hadCT := bool_decide (is_Some (Header w !! "Content-Type")) in
  let w := Header_Set "Location" url w in
  let w :=
    if negb hadCT && (String.eqb (Method r) "GET" || String.eqb (Method r) "HEAD")
    then Header_Set "Content-Type" "text/html; charset=utf-8" w
    else w in
  let w := WriteHeader code w in
  if negb hadCT && String.eqb (Method r) "GET"
  then Fprintln ("<a href=" +:+ dquote +:+ htmlEscape url +:+ dquote +:+ ">"
                 +:+ StatusText code +:+ "</a>." +:+ LF) w
  else w.

End Redirect.

(** [httptest.ResponseRecorder], the response writer of the package's own
    tests: the first [WriteHeader] fixes the status code, a [Write]
    before any [WriteHeader] fixes it at 200, and every [Write] appends
    to the body and reports the whole length written. *)
Record Recorder : Type := mk_Recorder {
  Code : Z;
  HeaderMap : Header_map;
  Body : string;
  wroteHeader : bool
}.

Definition NewRecorder : Recorder := mk_Recorder 200 ∅ "" false.

Definition Recorder_WriteHeader (code : Z) (rw : Recorder) : Recorder :=
  if wroteHeader rw then rw
  else mk_Recorder code (HeaderMap rw) (Body rw) true.

Definition Recorder_Write (p : string) (rw : Recorder) : Recorder * (Z * option error) :=
  let rw := Recorder_WriteHeader 200 rw in
  (mk_Recorder (Code rw) (HeaderMap rw) (Body rw +:+ p) true,
   (Z.of_nat (String.length p), None)).

#[export] Instance Recorder_ResponseWriter : ResponseWriter Recorder := {
  Header rw := HeaderMap rw;
  Header_Set k v rw :=
    mk_Recorder (Code rw) (<[k := [v]]> (HeaderMap rw)) (Body rw) (wroteHeader rw);
  WriteHeader := Recorder_WriteHeader;
  Write := Recorder_Write
}.

(** [context.Context]: the background context and the children made by
    [context.WithValue]. *)
Inductive GoContext : Type :=
| Background
| WithValue (parent : GoContext) (key val : string).

(** [ctx.Value(key)]: the innermost value attached under [key]. *)
Fixpoint Value (g : GoContext) (key : string) : option string :=
  match g with
  | Background => None
  | WithValue parent k v => if String.eqb k key then Some v else Value parent key
  end.

End Http.

(** ** Slices and their backing arrays *)

Module Slices.

Section Slices.
Context {A : Type}.

(** The zero value of the element type, which fills a fresh array. *)
Variable zero : A.

(** How much capacity [append] asks for when it must reallocate, given
    the length needed and the old capacity. *)
Variable grow : nat -> nat -> nat.

(** A slice value: its backing array ([None] for the nil slice), length
    and capacity. Every slice of the package starts at index 0 of its
    array. *)
Record slice : Type := mk_slice {
  arr : option nat;
  len : nat;
  cap : nat
}.

Definition nil_slice : slice := mk_slice None 0 0.

(** The arrays allocated so far, each as long as its capacity, and the
    name of the next one. *)
Record heap : Type := mk_heap {
  cells : gmap nat (list A);
  next : nat
}.

Definition empty_heap : heap := mk_heap ∅ 0.

(** The elements [s[0], ..., s[len(s)-1]]. *)
Definition elems (h : heap) (s : slice) : list A :=
  match arr s with
  | Some a => take (len s) (default [] (cells h !! a))
  | None => []
  end.

(** [append(s, xs...)]: when the capacity suffices the values are
    written into the backing array of [s], after its length; otherwise a
    new array is allocated and the elements of [s] are copied over. *)
Definition append (s : slice) (xs : list A) (h : heap) : slice * heap :=
  let n := (len s + length xs)%nat in
  if decide (n ≤ cap s)%nat then
    match arr s with
    | Some a =>
        (mk_slice (Some a) n (cap s),
         mk_heap (alter (list_inserts (len s) xs) a (cells h)) (next h))
    | None => (s, h)
    end
  else
    let c := grow n (cap s) in
    let a := next h in
    (mk_slice (Some a) n c,
     mk_heap (<[a := (elems h s ++ xs ++ replicate (c - n) zero)%list]> (cells h)) (S a)).

End Slices.

(** The growth of the Go runtime ([nextslicecap]) before the allocator
    rounds the size up to one of its size classes; for pointer-sized
    elements the capacities 1, 2, 4, ..., 128 are size classes. *)
Fixpoint grow_quarter (fuel newLen newcap : nat) : nat :=
  match fuel with
  | O => newLen
  | S fuel' =>
      let newcap := (newcap + (newcap + 3 * 256) / 4)%nat in
      if decide (newLen ≤ newcap)%nat then newcap
      else grow_quarter fuel' newLen newcap
  end.

Definition nextslicecap (newLen oldCap : nat) : nat :=
  let doublecap := (oldCap + oldCap)%nat in
  if decide (doublecap < newLen)%nat then newLen
  else if decide (oldCap < 256)%nat then doublecap
  else grow_quarter newLen newLen oldCap.

End Slices.

(** ** utils/color_generator.go *)

Module Utils.

Definition ESC : string := String (ascii_of_nat 27) EmptyString.

Definition ColorRed : string := ESC +:+ "[31m".
Definition ColorReset : string := ESC +:+ "[0m".

Definition Colorize (color message : string) : string :=
  color +:+ message +:+ ColorReset.

End Utils.

(** ** cherry.go: the facade, dispatch and the request context *)

Module App.
Import Http Slices.

(** A [Handler] value is the address of its code; the nil func is 0. *)
Definition Handler : Type := nat.
Definition nil_Handler : Handler := 0%nat.

(** An [ErrorHandlerFunc] value: the package's own [errorHandler], or the
    address of one given to [SetErrorHandler]. *)
Inductive ErrorHandlerFunc : Type :=
| DefaultErrorHandler
| UserErrorHandler (f : nat).

(** [os.Stderr], as the name of an output sink. *)
Definition Stderr : nat := 2%nat.

(** [type Cherry struct]. [Output] and [router] are references: the name
    of a sink and the name of a router. *)
Record Cherry : Type := mk_Cherry {
  ErrorHandler : ErrorHandlerFunc;
  Output : nat;
  HasAccessLog : bool;
  HTTP2 : bool;
  router : nat;
  middleware : slice;
  prefix : string;
  context : option GoContext
}.

(** [type Group struct { Cherry }] *)
Record Group : Type := mk_Group { Group_Cherry : Cherry }.

Definition set_middleware (m : slice) (c : Cherry) : Cherry :=
  mk_Cherry (ErrorHandler c) (Output c) (HasAccessLog c) (HTTP2 c) (router c)
            m (prefix c) (context c).
Definition set_prefix (p : string) (c : Cherry) : Cherry :=
  mk_Cherry (ErrorHandler c) (Output c) (HasAccessLog c) (HTTP2 c) (router c)
            (middleware c) p (context c).
Definition set_context (g : option GoContext) (c : Cherry) : Cherry :=
  mk_Cherry (ErrorHandler c) (Output c) (HasAccessLog c) (HTTP2 c) (router c)
            (middleware c) (prefix c) g.

(** [New()], with [r] the router [httprouter.New()] returned. *)
Definition New (r : nat) : Cherry :=
  mk_Cherry DefaultErrorHandler Stderr false false r nil_slice "" None.

(** [c.BindContext(ctx)] *)
Definition BindContext (g : option GoContext) (c : Cherry) : Cherry :=
  set_context g c.


Section Registration.

(** The growth policy of [append]. *)
Variable grow : nat -> nat -> nat.

(** [c.Use(handlers...)] *)
Definition Use (handlers : list Handler) (c : Cherry) (h : heap)
  : Cherry * heap :=
  let '(m, h') := append nil_Handler grow (middleware c) handlers h in
  (set_middleware m c, h').

(** [c.Group(prefix)]: the new group holds a copy of the struct [*c]. *)
Definition Group_ (p : string) (c : Cherry) : Group :=
  mk_Group (set_prefix (prefix c +:+ p) c).

(** [g.Reset()] *)
Definition Reset (g : Group) : Group :=
  mk_Group (set_middleware nil_slice (Group_Cherry g)).

(** [g.Use(handlers...)], the method promoted from the embedded struct. *)
Definition Group_Use (handlers : list Handler) (g : Group) (h : heap)
  : Group * heap :=
  let '(c, h') := Use handlers (Group_Cherry g) h in
  (mk_Group c, h').

End Registration.

(** The middleware a handle made on [c] ranges over. *)
Definition chain (h : heap) (c : Cherry) : list Handler :=
  elems h (middleware c).

(** [httprouter.Params] *)
Abbreviation Params := (list (string * string)).

Section Dispatch.
Context {W : Type} `{ResponseWriter W}.

(** What the closures given to the facade own besides the facade. *)
Context {U : Type}.

(** [type Context struct]. The field [Context] holds an interface value,
    [None] when nil; [response] is the writer the context refers to, in
    its current state. *)
Record Context : Type := mk_Context { Context_ : option GoContext;
  response : W;
  request : Request;
  vars : Params
}.

Definition set_Context (g : option GoContext) (ctx : Context) : Context :=
  mk_Context g (response ctx) (request ctx) (vars ctx).
Definition set_response (w : W) (ctx : Context) : Context :=
  mk_Context (Context_ ctx) w (request ctx) (vars ctx).

(** What a handler can reach through the variables it closes over: the
    facade its route was registered on, the backing arrays, and the
    state of the program around. *)
Record Env : Type := mk_Env {
  app : Cherry;
  arrays : heap (A := Handler);
  user : U
}.

Definition set_app (c : Cherry) (e : Env) : Env :=
  mk_Env c (arrays e) (user e).

(** The code behind each [Handler] and each [ErrorHandlerFunc] address.
    A handler receives the [*Context] and returns an error or nil. *)
Variable code : Handler -> Context -> Env -> Context * Env * option error.
Variable error_code : nat -> Context -> error -> Env -> Context * Env.

(** [c.Response()] *)
Definition Response (ctx : Context) : W := response ctx.

(** [c.Text(code, text)] *)
Definition Text (status : Z) (text : string) (ctx : Context)
  : Context * option error :=
  let w := Header_Set "Content-Type" "text/plain" (Response ctx) in
  let w := WriteHeader status w in
  let w := fst (Write text w) in
  (set_response w ctx, None).

(** [var errorHandler], the default error handler. *)
Definition errorHandler (ctx : Context) (err : error) : Context :=
  set_response (Error_ (Error err) StatusInternalServerError (Response ctx)) ctx.

(** The call [c.ErrorHandler(ctx, err)]. *)
Definition call_ErrorHandler (f : ErrorHandlerFunc) (ctx : Context)
  (err : error) (e : Env) : Context * Env :=
  match f with
  | DefaultErrorHandler => (errorHandler ctx err, e)
  | UserErrorHandler a => error_code a ctx err e
  end.

(** One call of a handler, as an observer of the run records it: which
    handler, the carried context it was given, and what it returned. *)
Record call : Type := mk_call {
  who : Handler;
  carried : option GoContext;
  ret : option error
}.

(** [for _, handler := range c.middleware]: the handlers run in order
    until one returns an error. The result holds the calls made and the
    error that ended the loop, if any. *)
Fixpoint run_middleware (mws : list Handler) (ctx : Context) (e : Env)
  : Context * Env * list call * option error :=
  match mws with
  | [] => (ctx, e, [], None)
  | handler :: rest =>
      let '(ctx1, e1, r) := code handler ctx e in
      let c := mk_call handler (Context_ ctx) r in
      match r with
      | Some err => (ctx1, e1, [c], Some err)
      | None =>
          let '(ctx2, e2, cs, r') := run_middleware rest ctx1 e1 in
          (ctx2, e2, c :: cs, r')
      end
  end.

(** What a run of the handle leaves: the writer, the environment, the
    calls of handlers made, in order, and the errors handed to the
    error handler, in order. *)
Record outcome : Type := mk_outcome {
  out_response : W;
  out_env : Env;
  out_calls : list call;
  out_handled : list error
}.

(** [if c.context == nil { c.context = context.Background() }] *)
Definition bind_default (c : Cherry) : Cherry :=
  match context c with
  | None => set_context (Some Background) c
  | Some _ => c
  end.

(** The closure [c.makeHttpRouterHandle(h)] returns, called by the router
    with [rw], [r] and [params]. The slice [c.middleware] is read once,
    when the loop starts. *)
Definition makeHttpRouterHandle (h : Handler) (rw : W) (r : Request)
  (params : Params) (e : Env) : outcome :=
  let e0 := set_app (bind_default (app e)) e in
  let ctx := mk_Context (context (app e0)) rw r params in
  let '(ctx1, e1, cs, r1) := run_middleware (chain (arrays e0) (app e0)) ctx e0 in
  match r1 with
  | Some err =>
      let '(ctx2, e2) := call_ErrorHandler (ErrorHandler (app e1)) ctx1 err e1 in
      mk_outcome (response ctx2) e2 cs [err]
  | None =>
      let '(ctx2, e2, r2) := code h ctx1 e1 in
      let c := mk_call h (Context_ ctx1) r2 in
      match r2 with
      | Some err =>
          let '(ctx3, e3) := call_ErrorHandler (ErrorHandler (app e2)) ctx2 err e2 in
          mk_outcome (response ctx3) e3 (cs ++ [c])%list [err]
      | None => mk_outcome (response ctx2) e2 (cs ++ [c])%list []
      end
  end.


Section RedirectMethod.
Variable redirect_target : Request -> string -> string.
Variable htmlEscape : string -> string.
Variable StatusText : Z -> string.

(** [c.Redirect(url, code)] *)
Definition Redirect_ (url : string) (status : Z) (ctx : Context)
  : Context * option error :=
  if decide (status < StatusMultipleChoices \/ status > StatusTemporaryRedirect)
  then (ctx, Some (errors_New "invalid redirect code"))
  else
    (set_response
       (Redirect redirect_target htmlEscape StatusText
                 (request ctx) url status (response ctx)) ctx,
     None).

End RedirectMethod.

End Dispatch.

End App.

(** ** cherry.go: serving a request, with or without the access log *)

Module Logging.
Import Http App.

(** [type responseLogger struct] *)
Record responseLogger (W : Type) : Type := mk_responseLogger {
  c : W;
  status : Z;
  size : Z
}.
Arguments mk_responseLogger {W} _ _ _.
Arguments c {W} _.
Arguments status {W} _.
Arguments size {W} _.

Section ResponseLogger.
Context {W : Type} `{ResponseWriter W}.

(** [func (l *responseLogger) Write(p []byte) (int, error)] *)
Definition responseLogger_Write (p : string) (l : responseLogger W)
  : responseLogger W * (Z * option error) :=
  let st := if decide (status l = 0) then StatusOK else status l in
  let '(w, (n, err)) := Write p (c l) in
  (mk_responseLogger w st (int_wrap (size l + n)), (n, err)).

(** [func (l *responseLogger) WriteHeader(code int)] *)
Definition responseLogger_WriteHeader (code : Z) (l : responseLogger W)
  : responseLogger W :=
  mk_responseLogger (WriteHeader code (c l)) code (size l).

(** The methods [Header], [WriteHeader] and [Write] make a
    [*responseLogger] an [http.ResponseWriter]. *)
#[export] Instance responseLogger_ResponseWriter : ResponseWriter (responseLogger W) := {
  Header l := Header (c l);
  Header_Set k v l := mk_responseLogger (Header_Set k v (c l)) (status l) (size l);
  WriteHeader := responseLogger_WriteHeader;
  Write := responseLogger_Write
}.

(** [l.Status()] and [l.Size()] *)
Definition Status (l : responseLogger W) : Z := status l.
Definition Size (l : responseLogger W) : Z := size l.

End ResponseLogger.

(** The calls a handler may make on the writer it is given. *)
Inductive rw_call : Type :=
| CallHeaderSet (k v : string)
| CallWriteHeader (code : Z)
| CallWrite (p : string).

(** Making the calls [cs] on [w], in order; the result holds the byte
    counts the calls of [Write] returned. *)
Fixpoint do_calls {W : Type} `{ResponseWriter W} (cs : list rw_call) (w : W)
  : W * list Z :=
  match cs with
  | [] => (w, [])
  | CallHeaderSet k v :: cs' => do_calls cs' (Header_Set k v w)
  | CallWriteHeader code :: cs' => do_calls cs' (WriteHeader code w)
  | CallWrite p :: cs' =>
      let '(w', (n, _)) := Write p w in
      let '(w'', ns) := do_calls cs' w' in
      (w'', n :: ns)
  end.

(** The status a [responseLogger] holds after the calls [cs], starting
    from [st]: the code of the last [WriteHeader], where a [Write] that
    finds no status yet counts as 200. *)
Fixpoint observed_status (cs : list rw_call) (st : Z) : Z :=
  match cs with
  | [] => st
  | CallHeaderSet _ _ :: cs' => observed_status cs' st
  | CallWriteHeader code :: cs' => observed_status cs' code
  | CallWrite _ :: cs' =>
      observed_status cs' (if decide (st = 0) then StatusOK else st)
  end.

(** The sum [size] holds after [Write] returned the counts [ns]. *)
Definition observed_size (ns : list Z) (sz : Z) : Z :=
  foldl (fun acc n => int_wrap (acc + n)) sz ns.

(** The writes made on output sinks, oldest first: sink and text. *)
Abbreviation sink_log := (list (nat * string)).

Section ServeHTTP.

(** What the router and the handlers registered on it own. *)
Context {G : Type}.

(** [time.Time], and [t.Format(layout)]. *)
Context {Time : Type}.
Variable Format : string -> Time -> string.

(** [net.SplitHostPort]: host, port and error. *)
Variable SplitHostPort : string -> string * string * option error.

(** [c.router.ServeHTTP(w, r)], for any writer [w]. *)
Variable router_ServeHTTP :
  forall (W : Type), ResponseWriter W -> W -> Request -> G -> W * G.

(** The bytes of the cherries in the name of the server. *)
Definition cherries : string :=
  String (ascii_of_nat 240) (String (ascii_of_nat 159)
    (String (ascii_of_nat 141) (String (ascii_of_nat 146) EmptyString))).





End ServeHTTP.

End Logging.

(** ** cherry.go: starting the server *)

Module Startup.
Import Http App Utils Logging.

(** The two ways [serve] starts the graceful server. *)
Inductive listen_call : Type :=
| ListenAndServe (addr : string)
| ListenAndServeTLS (addr cert key : string).

(** What the process does that the outside can see, oldest first. *)
Inductive event : Type :=
| EvChdir (dir : string)
| EvWrite (sink : nat) (text : string)
| EvListen (call : listen_call).

(** The process: its current working directory and what it did. *)
Record process : Type := mk_process {
  cwd : string;
  events : list event
}.

Definition emit (ev : event) (p : process) : process :=
  mk_process (cwd p) (events p ++ [ev]).

Section Serve.

(** The embedded file [assets/banner.txt]. *)
Variable banner : string.

(** What [os.Executable()] returns. *)
Variable Executable : string * option error.

(** [filepath.Dir] *)
Variable filepath_Dir : string -> string.

(** [os.Chdir(dir)] in a process whose working directory is the first
    argument: the error, or the new working directory. *)
Variable Chdir : string -> string -> error + string.

(** What [srv.ListenAndServe()] and [srv.ListenAndServeTLS(cert, key)]
    return when they end, in a process with the given working
    directory. *)
Variable listen_result : listen_call -> string -> error.

(** [c.serve(s, files...)], with [addr] the field [s.Addr]. *)
Definition serve (c : Cherry) (addr : string) (files : list string) (p : process)
  : process * error :=
  let '(packagePath, _) := Executable in
  let packageDir := filepath_Dir packagePath in
  match Chdir (cwd p) packageDir with
  | inl err => (p, err)
  | inr dir =>
      let p := mk_process dir (events p ++ [EvChdir dir]) in
      let p := emit (EvWrite (Output c) (Colorize ColorRed banner +:+ LF)) p in
      match files with
      | [] =>
          let p := emit (EvWrite (Output c)
                           ("Cherry" +:+ cherries +:+ " listening on 0.0.0.0:"
                            +:+ addr +:+ LF)) p in
          let p := emit (EvListen (ListenAndServe addr)) p in
          (p, listen_result (ListenAndServe addr) (cwd p))
      | [cert; key] =>
          let p := emit (EvWrite (Output c)
                           ("Cherry" +:+ cherries +:+ " listening TLS on 0.0.0.0:"
                            +:+ addr +:+ LF)) p in
          let p := emit (EvListen (ListenAndServeTLS addr cert key)) p in
          (p, listen_result (ListenAndServeTLS addr cert key) (cwd p))
      | _ => (p, errors_New "invalid server configuration detected")
      end
  end.

(** [newServer(fmt.Sprintf(":%d", port), c, c.HTTP2).Addr] *)
Definition port_addr (port : Z) : string := ":" +:+ pretty port.

(** [c.Serve(port)] *)
Definition Serve (c : Cherry) (port : Z) (p : process) : process * error :=
  serve c (port_addr port) [] p.

(** [c.ServeTLS(port, certFile, keyFile)] *)
Definition ServeTLS (c : Cherry) (port : Z) (certFile keyFile : string)
  (p : process) : process * error :=
  serve c (port_addr port) [certFile; keyFile] p.

(** [c.ServeCustom(s)] *)
Definition ServeCustom (c : Cherry) (addr : string) (p : process)
  : process * error :=
  serve c addr [] p.

(** [c.ServeCustomTLS(s, certFile, keyFile)] *)
Definition ServeCustomTLS (c : Cherry) (addr certFile keyFile : string)
  (p : process) : process * error :=
  serve c addr [certFile; keyFile] p.

End Serve.

End Startup.

(** ** Fixtures: the handlers of the package's tests and stand-ins for
       the standard library, used to run the definitions above *)

Module Fixtures.
Import Http Slices App Logging Startup.

(** [context.WithValue(ctx.Context, key, val)] on the field of a
    [*Context]. *)
Definition attach (key val : string) (g : option GoContext) : option GoContext :=
  match g with
  | Some parent => Some (WithValue parent key val)
  | None => None
  end.

(** The closures of [TestMiddleware], [TestErrorHandler] and
    [TestContext]; they share a [bytes.Buffer].
    1 and 2 write "a" and "b" to the buffer; 3 returns the error of
    [TestErrorHandler]; 4 attaches the value "m1" under the key "m1";
    6 answers with [ctx.Text(200, "hi")] and then fails; every other
    address is [noopHandler]. *)
Definition test_code (handler : Handler) (ctx : Context (W := Recorder))
  (e : Env (U := string))
  : Context (W := Recorder) * Env (U := string) * option error :=
  match handler with
  | 1%nat => (ctx, mk_Env (app e) (arrays e) (user e +:+ "a"), None)
  | 2%nat => (ctx, mk_Env (app e) (arrays e) (user e +:+ "b"), None)
  | 3%nat => (ctx, e, Some (errors_New "oops! something went wrong"))
  | 4%nat => (set_Context (attach "m1" "m1" (Context_ ctx)) ctx, e, None)
  | 6%nat => ((Text 200 "hi" ctx).1, e, Some (errors_New "too late"))
  | _ => (ctx, e, None)
  end.

Definition test_error_code (a : nat) (ctx : Context (W := Recorder)) (err : error)
  (e : Env (U := string)) : Context (W := Recorder) * Env (U := string) :=
  (ctx, e).

(** A facade with the middleware [mws], each given to its own call of
    [Use], as [TestMiddleware] does. *)
Fixpoint use_each (mws : list Handler) (c : Cherry) (h : heap (A := Handler))
  : Cherry * heap (A := Handler) :=
  match mws with
  | [] => (c, h)
  | m :: rest => let '(c', h') := Use nextslicecap [m] c h in use_each rest c' h'
  end.

Definition test_env (mws : list Handler) : Env (U := string) :=
  let '(c, h) := use_each mws (New 0) empty_heap in
  mk_Env c h "".

Definition test_request : Request :=
  mk_Request "GET" "/x" "HTTP/1.1" "127.0.0.1:3000" "/x" None.









(** A file system in which only "/opt/cherry" can be entered. *)
Definition Chdir_simple (cwd dir : string) : error + string :=
  if decide (dir = "/opt/cherry") then inr dir
  else inl (errors_New ("chdir " +:+ dir +:+ ": no such file or directory")).

Definition Dir_simple (path : string) : string :=
  if decide (path = "/opt/cherry/app") then "/opt/cherry"
  else if decide (path = "/gone/app") then "/gone"
  else ".".

End Fixtures.

(** ** server.go: the history of a run *)

Module ServerHistory.
Import Server.

(** What a reported connection state adds to the wait group. *)
Definition conn_delta (lbl : label) : Z :=
  match lbl with
  | LConnState StateNew => 1
  | LConnState StateClosed | LConnState StateHijacked => -1
  | _ => 0
  end.

(** Connections reported new, less those reported closed or hijacked. *)
Definition net_connections (tr : list label) : Z :=
  foldr (fun lbl acc => conn_delta lbl + acc) 0 tr.

(** The signals that take the first case of the [switch] in
    [closeNotify]. *)
Definition graceful_signal (sign : Signal) : bool :=
  match sign with
  | SIGTERM | SIGQUIT | SIGINT => true
  | _ => false
  end.

(** Whether one of them was delivered during [tr]. *)
Definition signalled (tr : list label) : bool :=
  existsb (fun lbl => match lbl with
                      | LSignal sign => graceful_signal sign
                      | _ => false
                      end) tr.

(** What relates a running server to the labels [hist] that led to it. *)
Definition history_inv (hist : list label) (s : sys) : Prop :=
  match s with
  | Crashed _ => True
  | Running p =>
      fquit (srv p) = 0%nat /\
      (quit (srv p) <= 1)%nat /\
      (notifier p = AwaitSignal ->
       quit (srv p) = 0%nat /\ signalled hist = false /\ l_closed p = false) /\
      notifier p <> BlockedSend /\
      (l_closed p = true <-> signalled hist = true) /\
      (signalled hist = true -> main p = AtSelect -> quit (srv p) = 1%nat) /\
      (quit (srv p) = 1%nat -> signalled hist = true) /\
      (forall e, errChan p = Some e -> LServeExit e ∈ hist) /\
      match main p with
      | AtSelect => True
      | AtWait =>
          signalled hist = true /\ KeepAlivesEnabled (srv p) = false
      | Returned e =>
          (e = stopped_gracefully /\ signalled hist = true /\
           KeepAlivesEnabled (srv p) = false) \/
          (LServeExit e ∈ hist /\ Contains (Error e) useClosedConn = false)
      end
  end.

(** The labels under which a waiting or selecting server, once told to
    stop gracefully, returns: the [quit] case if it is still at the
    [select], one closed connection for each one open, and the return
    from [Wait]. *)
Definition drain (p : proc) : list label :=
  match main p with
  | AtSelect => [LSelect CaseQuit]
  | _ => []
  end ++ replicate (Z.to_nat (wg (srv p))) (LConnState StateClosed) ++ [LWait].

End ServerHistory.

(** ** Slices: what a heap and a slice value must satisfy together *)

Module SliceInv.
Import Slices App.

Section SliceInv.
Context {A : Type}.

(** A slice value fits a heap when its length is within its capacity
    and its array, if it has one, is allocated and as long as the
    capacity; the nil slice has capacity zero. *)
Definition wf_slice (h : heap (A := A)) (s : slice) : Prop :=
  (len s <= cap s)%nat /\
  match arr s with
  | Some a => (a < next h)%nat /\ exists l, cells h !! a = Some l /\ length l = cap s
  | None => cap s = 0%nat
  end.

End SliceInv.

(** A growth policy gives at least the length asked for. *)
Definition grows (grow : nat -> nat -> nat) : Prop :=
  forall n c, (c < n)%nat -> (n <= grow n c)%nat.

(** Two slices stay apart under [Use] on the first: the second has
    another array or is not longer. *)
Definition apart (c d : Cherry) : Prop :=
  arr (middleware d) <> arr (middleware c) \/
  (len (middleware d) <= len (middleware c))%nat.

(** Several calls of [c.Use], one for each list of handlers. *)
Fixpoint use_all (grow : nat -> nat -> nat) (batches : list (list Handler))
  (c : Cherry) (h : heap (A := Handler)) : Cherry * heap (A := Handler) :=
  match batches with
  | [] => (c, h)
  | hs :: rest => let '(c', h') := Use grow hs c h in use_all grow rest c' h'
  end.

End SliceInv.

(** ** Fixtures: two facades *)

Module Facades.
Import Slices App SliceInv.

(** [app.Use(h1); app.Use(h2); app.Use(h3)] on a new facade: the slice
    ends with length 3 and capacity 4. *)
Definition three_calls : Cherry * heap (A := Handler) :=
  use_all nextslicecap [[1]; [2]; [3]]%nat (New 0%nat) empty_heap.

(** [app.Use(h1, h2)] on a new facade, as in the README: the slice ends
    with length 2 and capacity 2. *)
Definition one_call : Cherry * heap (A := Handler) :=
  use_all nextslicecap [[1; 2]]%nat (New 0%nat) empty_heap.

End Facades.

(** ** cherry.go: the other response helpers, and what handlers write *)

Module Responses.
Import Http App Logging.

(** The status codes [WriteHeader] accepts. *)
Definition valid_status (code : Z) : Prop := 100 <= code <= 999.

Section JSON.
Context {W : Type} `{ResponseWriter W}.

(** The values given to [json.Marshal] and what it returns for them. *)
Context {V : Type}.
Variable json_Marshal : V -> error + string.

(** [c.JSON(code, v)]. [json.NewEncoder(w).Encode(v)] marshals [v]; on an
    error it returns it and writes nothing; otherwise it writes the
    encoding and a line feed with one call of [Write] and returns the
    error of that call. *)
Definition JSON (status : Z) (v : V) (ctx : Context (W := W))
  : Context (W := W) * option error :=
  let w := Header_Set "Content-Type" "application/json" (Response ctx) in
  let w := WriteHeader status w in
  match json_Marshal v with
  | inl err => (set_response w ctx, Some err)
  | inr bytes =>
      let '(w', (_, werr)) := Write (bytes +:+ LF) w in
      (set_response w' ctx, werr)
  end.

End JSON.

(** Whether the calls include a [WriteHeader], a [Write], or a
    [Header().Set] of the key [k]. *)
Definition writes_header (cs : list rw_call) : bool :=
  existsb (fun call => match call with CallWriteHeader _ => true | _ => false end) cs.
Definition writes_body (cs : list rw_call) : bool :=
  existsb (fun call => match call with CallWrite _ => true | _ => false end) cs.
Definition sets_header (k : string) (cs : list rw_call) : bool :=
  existsb (fun call => match call with
                       | CallHeaderSet k' _ => bool_decide (k' = k)
                       | _ => false
                       end) cs.

(** The status the calls send: that of the first [WriteHeader], or 200
    when a [Write] comes first; [None] when they send none. *)
Fixpoint sent_status (cs : list rw_call) : option Z :=
  match cs with
  | [] => None
  | CallHeaderSet _ _ :: cs' => sent_status cs'
  | CallWriteHeader code :: _ => Some code
  | CallWrite _ :: _ => Some StatusOK
  end.

(** The bytes the calls write, in order. *)
Fixpoint body_written (cs : list rw_call) : string :=
  match cs with
  | [] => ""
  | CallWrite p :: cs' => p +:+ body_written cs'
  | _ :: cs' => body_written cs'
  end.

(** Every status the calls give to [WriteHeader] is one it accepts. *)
Definition valid_calls (cs : list rw_call) : Prop :=
  forall code, CallWriteHeader code ∈ cs -> valid_status code.

End Responses.

(** * Properties *)

Import Go.



Lemma append_assoc (s t u : string) : s +:+ t +:+ u = (s +:+ t) +:+ u.
Proof.
  induction s as [|a s IH]; [done|].
  change (String a (s +:+ t +:+ u) = String a ((s +:+ t) +:+ u)). by rewrite IH.
Qed.



(** ** The graceful server *)

Section ServerFacts.
Import Server.

Lemma run_cons (lbl : label) (tr : list label) (s : sys) :
  run (lbl :: tr) s = step lbl s ≫= run tr.
Proof. simpl. by destruct (step lbl s). Qed.

(** A crashed process takes no step. *)
Lemma run_Crashed (tr : list label) (msg : string) (s : sys) :
  run tr (Crashed msg) = Some s -> s = Crashed msg.
Proof. destruct tr; simpl; congruence. Qed.

(** Moves of the environment leave the [serve] goroutine where it is and
    do not touch the keep-alive switch. *)
Lemma env_step_frame (lbl : label) (p p' : proc) :
  env_label lbl = true ->
  step lbl (Running p) = Some (Running p') ->
  main p' = main p /\
  KeepAlivesEnabled (srv p') = KeepAlivesEnabled (srv p).
Proof.
  destruct lbl as [c| |state|sign|e]; simpl; try discriminate; intros _.
  - destruct (ConnState_hook state (wg (srv p))); intros [= <-]; done.
  - destruct (notifier p); try discriminate.
    case_bool_decide; try discriminate.
    destruct sign; simpl; unfold chan_send; repeat case_decide;
      intros [= <-]; done.
  - destruct (serving p); intros [= <-]; done.
Qed.

Lemma env_run_frame (tr : list label) (p p' : proc) :
  forallb env_label tr = true ->
  run tr (Running p) = Some (Running p') ->
  main p' = main p /\
  KeepAlivesEnabled (srv p') = KeepAlivesEnabled (srv p).
Proof.
  revert p; induction tr as [|lbl tr IH]; intros p.
  - intros _ [= <-]; done.
  - rewrite run_cons. cbn [forallb]. rewrite andb_true_iff; intros [Hl Htr].
    destruct (step lbl (Running p)) as [[p1|msg]|] eqn:Hstep; try discriminate.
    + cbn [mbind option_bind]. intros Hrun. destruct (IH p1 Htr Hrun) as [-> ->].
      exact (env_step_frame _ _ _ Hl Hstep).
    + cbn [mbind option_bind]. intros Hrun. apply run_Crashed in Hrun. discriminate.
Qed.

(** Once [serve] has returned, its result stays what it is, unless the
    process crashes. *)
Lemma step_result_kept (lbl : label) (s s' : sys) (e : error) :
  result s = Some e -> step lbl s = Some s' ->
  result s' = Some e \/ exists msg, s' = Crashed msg.
Proof.
  intros Hres Hstep. destruct s' as [p'|msg']; [left | right; by exists msg'].
  destruct s as [p|msg]; simpl in Hres; [|done].
  destruct (main p) as [| |err] eqn:Hmain; try discriminate.
  injection Hres as ->.
  destruct lbl as [c| |state|sign|e0];
    try (simpl in Hstep; rewrite ?Hmain in Hstep; discriminate).
  - destruct (env_step_frame (LConnState state) p p' eq_refl Hstep) as [H _].
    simpl. by rewrite H, Hmain.
  - destruct (env_step_frame (LSignal sign) p p' eq_refl Hstep) as [H _].
    simpl. by rewrite H, Hmain.
  - destruct (env_step_frame (LServeExit e0) p p' eq_refl Hstep) as [H _].
    simpl. by rewrite H, Hmain.
Qed.

Lemma run_result_stable (tr : list label) (s s' : sys) (e e' : error) :
  result s = Some e -> run tr s = Some s' -> result s' = Some e' -> e' = e.
Proof.
  revert s; induction tr as [|lbl tr IH]; intros s Hres.
  - intros [= <-]. congruence.
  - rewrite run_cons. destruct (step lbl s) as [s1|] eqn:Hstep; [|done].
    cbn [mbind option_bind].
    destruct (step_result_kept _ _ _ _ Hres Hstep) as [H1 | [msg ->]].
    + by apply IH.
    + intros Hrun Hres'. apply run_Crashed in Hrun. by subst.
Qed.

Lemma chans_inv_step (lbl : label) (s s' : sys) :
  chans_inv s -> step lbl s = Some s' -> chans_inv s'.
Proof.
  destruct s as [p|msg]; [|done].
  destruct p as [[ka q fq w] lc ec m n sv]; simpl.
  intros [-> Hq].
  destruct lbl as [c| |state|sign|e]; simpl.
  - destruct m; try discriminate.
    destruct c; simpl.
    + destruct ec as [err|]; [|done].
      destruct (Contains _ _); intros [= <-]; done.
    + destruct q as [|q]; [done|]. intros [= <-]. simpl. split; [done|].
      intros Hn. specialize (Hq Hn). discriminate.
    + done.
  - destruct m; try discriminate. unfold serve_wait; simpl.
    destruct (wg_Wait_ready w); intros [= <-]; done.
  - destruct (ConnState_hook state w); intros [= <-]; done.
  - destruct n; try discriminate. rewrite (Hq eq_refl).
    destruct sign; vm_compute; intros [= <-]; done.
  - destruct sv; intros [= <-]; done.
Qed.

Lemma chans_inv_run (tr : list label) (s s' : sys) :
  chans_inv s -> run tr s = Some s' -> chans_inv s'.
Proof.
  revert s; induction tr as [|lbl tr IH]; intros s Hinv.
  - intros [= <-]; done.
  - rewrite run_cons. destruct (step lbl s) as [s1|] eqn:Hstep; [|done].
    cbn [mbind option_bind]. apply IH. by eapply chans_inv_step.
Qed.

Lemma reachable_chans_inv (ka : bool) (s : sys) :
  reachable ka s -> chans_inv s.
Proof. intros [tr Hrun]. eapply chans_inv_run; [|exact Hrun]. done. Qed.

(** C1. The two ways [serve] stops. With a graceful-stop signal pending at
    the [select], the [quit] case disables keep-alive and enters
    [Wait]; whatever the environment then does, the goroutine takes no
    step while the counter is not zero, and when it is zero it returns
    "server stopped gracefully" with keep-alive still disabled. With a
    forced-stop signal pending, the [fquit] case returns "server
    stopped: process killed" at once, whatever the counter holds. The
    connection-state callback adds one on [StateNew], subtracts one on
    [StateClosed] and [StateHijacked] and leaves the counter alone
    otherwise. Once [serve] has returned, its result never changes, so a
    server instance has at most one of the two outcomes. *)
Theorem serve_stop_outcomes :
  (forall p : proc,
      main p = AtSelect -> quit (srv p) = 1%nat ->
      exists p1,
        step (LSelect CaseQuit) (Running p) = Some (Running p1) /\
        main p1 = AtWait /\
        KeepAlivesEnabled (srv p1) = false /\
        wg (srv p1) = wg (srv p) /\
        result (Running p1) = None /\
        forall (env : list label) (p2 : proc),
          forallb env_label env = true ->
          run env (Running p1) = Some (Running p2) ->
          KeepAlivesEnabled (srv p2) = false /\
          (forall c, step (LSelect c) (Running p2) = None) /\
          (wg (srv p2) <> 0 -> step LWait (Running p2) = None) /\
          (wg (srv p2) = 0 ->
           exists p3,
             step LWait (Running p2) = Some (Running p3) /\
             result (Running p3) = Some stopped_gracefully /\
             srv p3 = srv p2)) /\
  (forall p : proc,
      main p = AtSelect -> fquit (srv p) = 1%nat ->
      exists p1,
        step (LSelect CaseFquit) (Running p) = Some (Running p1) /\
        result (Running p1) = Some stopped_killed /\
        wg (srv p1) = wg (srv p) /\
        KeepAlivesEnabled (srv p1) = KeepAlivesEnabled (srv p)) /\
  (forall (p p' : proc) (state : ConnState),
      step (LConnState state) (Running p) = Some (Running p') ->
      wg (srv p') = wg (srv p) +
                    match state with
                    | StateNew => 1
                    | StateClosed | StateHijacked => -1
                    | StateActive | StateIdle => 0
                    end) /\
  (forall (s s' : sys) (tr : list label) (e e' : error),
      result s = Some e -> run tr s = Some s' -> result s' = Some e' ->
      e' = e) /\
  stopped_gracefully <> stopped_killed.
Proof.
  split; [|split; [|split; [|split]]].
  - intros [[ka q fq w] lc ec m n sv]; simpl. intros -> ->.
    eexists. split; [reflexivity|]. simpl.
    repeat (split; [reflexivity|]).
    intros env p2 Henv Hrun.
    destruct (env_run_frame env _ _ Henv Hrun) as [Hmain Hka].
    simpl in Hmain, Hka. split; [exact Hka|]. split; [|split].
    + intros c. simpl. by rewrite Hmain.
    + intros Hwg. simpl. rewrite Hmain. unfold serve_wait, wg_Wait_ready.
      by rewrite bool_decide_eq_false_2.
    + intros Hwg. simpl. rewrite Hmain. unfold serve_wait, wg_Wait_ready.
      rewrite bool_decide_eq_true_2 by done. simpl.
      eexists. split; [reflexivity|]. done.
  - intros [[ka q fq w] lc ec m n sv]; simpl. intros -> ->.
    eexists. split; [reflexivity|]. done.
  - intros [[ka q fq w] lc ec m n sv] p' state; simpl.
    destruct state; simpl; unfold wg_Done, wg_Add; try case_decide;
      intros [= <-]; simpl; lia.
  - intros s s' tr e e'. apply run_result_stable.
  - discriminate.
Qed.

Lemma serve_stop_outcomes_witness :
  (exists p1,
      step (LSelect CaseQuit)
           (Running (mk_proc (mk_server true 1 0 1) true None AtSelect NotifyDone true))
      = Some (Running p1) /\
      run [LConnState StateClosed; LWait] (Running p1)
      = Some (Running (mk_proc (mk_server false 0 0 0) true None
                               (Returned stopped_gracefully) NotifyDone true)) /\
      step LWait (Running p1) = None) /\
  (exists p1,
      step (LSelect CaseFquit)
           (Running (mk_proc (mk_server true 0 1 5) true None AtSelect NotifyDone true))
      = Some (Running p1) /\
      result (Running p1) = Some stopped_killed /\ wg (srv p1) = 5).
Proof.
  destruct serve_stop_outcomes as (Hq & Hf & _).
  split.
  - destruct (Hq (mk_proc (mk_server true 1 0 1) true None AtSelect NotifyDone true)
                eq_refl eq_refl) as (p1 & Hstep & _).
    exists p1. split; [exact Hstep|].
    injection Hstep as <-. split; reflexivity.
  - destruct (Hf (mk_proc (mk_server true 0 1 5) true None AtSelect NotifyDone true)
                eq_refl eq_refl) as (p1 & Hstep & Hres & Hwg & _).
    exists p1. split; [exact Hstep|]. split; [exact Hres|exact Hwg].
Defined.

(** The scenario of the specification: a connection is open when SIGTERM
    arrives; [Serve] exits because the listener is closed, which is
    dropped; [serve] takes the [quit] case and cannot leave [Wait]
    before the connection is closed; then it returns. *)
Example graceful_stop_waits_for_connection :
  let closed := errors_New "accept tcp [::]:3000: use of closed network connection" in
  let before := [LConnState StateNew; LConnState StateActive; LSignal SIGTERM;
                 LServeExit closed; LSelect CaseErrChan; LSelect CaseQuit] in
  (exists s, run before (init true) = Some s /\ result s = None /\
             step LWait s = None /\
             forall c, step (LSelect c) s = None) /\
  (exists s, run (before ++ [LConnState StateClosed; LWait]) (init true) = Some s /\
             result s = Some stopped_gracefully).
Proof.
  split.
  - eexists. split; [vm_compute; reflexivity|]. split; [done|]. split; [done|].
    by intros [].
  - eexists. split; [vm_compute; reflexivity | done].
Qed.

(** C4. While [closeNotify] waits on a fresh server, the signal it reads
    decides what it does: SIGINT, SIGQUIT and SIGTERM close the listener
    and put one value on [quit]; SIGKILL closes the listener and puts
    one value on [fquit]; SIGUSR2 panics with "USR2 => not implemented",
    which ends the process. *)
Theorem closeNotify_signal_handling
  (ka : bool) (tr : list label) (p : proc)
  (Hreach : run tr (init ka) = Some (Running p))
  (Hwait : notifier p = AwaitSignal) :
  (forall sign, sign = SIGINT \/ sign = SIGQUIT \/ sign = SIGTERM ->
     closeNotify sign p = Sent (set_srv (set_quit 1 (srv p)) (Close p)) /\
     l_closed (set_srv (set_quit 1 (srv p)) (Close p)) = true /\
     quit (srv (set_srv (set_quit 1 (srv p)) (Close p))) = 1%nat /\
     fquit (srv (set_srv (set_quit 1 (srv p)) (Close p))) = 0%nat) /\
  (closeNotify SIGKILL p = Sent (set_srv (set_fquit 1 (srv p)) (Close p)) /\
   l_closed (set_srv (set_fquit 1 (srv p)) (Close p)) = true /\
   fquit (srv (set_srv (set_fquit 1 (srv p)) (Close p))) = 1%nat /\
   quit (srv (set_srv (set_fquit 1 (srv p)) (Close p))) = 0%nat) /\
  closeNotify SIGUSR2 p = Panics "USR2 => not implemented" /\
  step (LSignal SIGUSR2) (Running p) = Some (Crashed "USR2 => not implemented").
Proof.
  assert (Hinv : chans_inv (Running p)).
  { apply (reachable_chans_inv ka). by exists tr. }
  destruct Hinv as [Hf Hq]. specialize (Hq Hwait).
  destruct p as [[k q fq w] lc ec m n sv]; simpl in *. subst.
  split; [|split; [|split]]; try done.
  intros sign [-> | [-> | ->]]; done.
Qed.

Lemma closeNotify_signal_handling_witness :
  closeNotify SIGTERM (mk_proc (mk_server true 0 0 0) false None AtSelect AwaitSignal true)
  = Sent (mk_proc (mk_server true 1 0 0) true None AtSelect AwaitSignal true) /\
  closeNotify SIGKILL (mk_proc (mk_server true 0 0 0) false None AtSelect AwaitSignal true)
  = Sent (mk_proc (mk_server true 0 1 0) true None AtSelect AwaitSignal true) /\
  step (LSignal SIGUSR2) (init true) = Some (Crashed "USR2 => not implemented").
Proof.
  destruct (closeNotify_signal_handling true []
              (mk_proc (mk_server true 0 0 0) false None AtSelect AwaitSignal true)
              eq_refl eq_refl) as (Hg & (Hk & _) & _ & Hu).
  split; [exact (proj1 (Hg SIGTERM (or_intror (or_intror eq_refl))))|].
  split; [exact Hk | exact Hu].
Defined.

(** C5. When [Serve] has exited with [err] and the [select] takes that
    case: if the message of [err] contains "use of closed network
    connection" the error is dropped and [serve] is back at the
    [select] with the server untouched, and nothing but a stop signal
    can make it return; otherwise [serve] returns [err] itself. *)
Theorem serve_error_handling
  (p : proc) (err : error)
  (Hmain : main p = AtSelect)
  (Herr : errChan p = Some err) :
  (Contains (Error err) useClosedConn = true ->
   step (LSelect CaseErrChan) (Running p) = Some (Running (set_errChan None p)) /\
   main (set_errChan None p) = AtSelect /\
   result (Running (set_errChan None p)) = None /\
   srv (set_errChan None p) = srv p /\
   step (LSelect CaseErrChan) (Running (set_errChan None p)) = None) /\
  (Contains (Error err) useClosedConn = false ->
   exists p',
     step (LSelect CaseErrChan) (Running p) = Some (Running p') /\
     result (Running p') = Some err).
Proof.
  destruct p as [[k q fq w] lc ec m n sv]; simpl in *. subst.
  split; intros ->; simpl.
  - done.
  - eexists. split; reflexivity.
Qed.

Lemma serve_error_handling_witness :
  step (LSelect CaseErrChan)
       (Running (mk_proc (mk_server true 0 0 2) true
                   (Some (errors_New "accept tcp [::]:3000: use of closed network connection"))
                   AtSelect NotifyDone false))
  = Some (Running (mk_proc (mk_server true 0 0 2) true None AtSelect NotifyDone false)) /\
  exists p',
    step (LSelect CaseErrChan)
         (Running (mk_proc (mk_server true 0 0 2) false
                     (Some (errors_New "accept tcp: too many open files"))
                     AtSelect AwaitSignal false))
    = Some (Running p') /\
    result (Running p') = Some (errors_New "accept tcp: too many open files").
Proof.
  split.
  - exact (proj1 (proj1 (serve_error_handling
             (mk_proc (mk_server true 0 0 2) true
                (Some (errors_New "accept tcp [::]:3000: use of closed network connection"))
                AtSelect NotifyDone false) _ eq_refl eq_refl) eq_refl)).
  - exact (proj2 (serve_error_handling
             (mk_proc (mk_server true 0 0 2) false
                (Some (errors_New "accept tcp: too many open files"))
                AtSelect AwaitSignal false) _ eq_refl eq_refl) eq_refl).
Defined.

(** The forced-stop channel stays empty in every state the server
    reaches, and SIGKILL is not among the signals [closeNotify] asks
    for. *)
Lemma fquit_never_sent (ka : bool) (tr : list label) (p : proc) :
  run tr (init ka) = Some (Running p) ->
  fquit (srv p) = 0%nat /\ step (LSelect CaseFquit) (Running p) = None /\
  step (LSignal SIGKILL) (Running p) = None.
Proof.
  intros Hrun.
  assert (Hinv : chans_inv (Running p)).
  { apply (reachable_chans_inv ka). by exists tr. }
  destruct Hinv as [Hf _].
  destruct p as [[k q fq w] lc ec m n sv]; simpl in *. subst.
  split; [done|]. split.
  - by destruct m.
  - by destruct n.
Qed.

End ServerFacts.

(** ** Dispatch through the middleware chain *)

Section DispatchFacts.
Import Http Slices App.
Context {W : Type} `{ResponseWriter W} {U : Type}.
Variable code :
  Handler -> Context (W := W) -> Env (U := U) ->
  (Context (W := W) * Env (U := U)) * option error.
Variable error_code :
  nat -> Context (W := W) -> error -> Env (U := U) ->
  (Context (W := W) * Env (U := U)).









End DispatchFacts.

(** ** The request context *)

Section RedirectFacts.
Import Http App.
Variable redirect_target : Request -> string -> string.
Variable htmlEscape : string -> string.
Variable StatusText : Z -> string.

(** C6. [Redirect] returns an error exactly when the code is outside
    300..307; then the error is "invalid redirect code" and nothing is
    written. For a code within 300..307 it returns nil after the call
    of [http.Redirect] on the response, which on a recorder that has
    not yet sent its header leaves that code as the status and the
    target under the header Location. *)
Theorem Redirect_code_validation :
  (forall (W : Type) (RW : ResponseWriter W) (ctx : Context (W := W))
          (url : string) (status : Z),
      let res := Redirect_ redirect_target htmlEscape StatusText url status ctx in
      (is_Some res.2 <-> ~ (300 <= status <= 307)) /\
      (~ (300 <= status <= 307) ->
       res = (ctx, Some (errors_New "invalid redirect code"))) /\
      (300 <= status <= 307 ->
       res = (set_response
                (Redirect redirect_target htmlEscape StatusText
                          (request ctx) url status (response ctx)) ctx,
              None))) /\
  (forall (ctx : Context (W := Recorder)) (url : string) (status : Z),
      300 <= status <= 307 ->
      wroteHeader (response ctx) = false ->
      let ctx' := (Redirect_ redirect_target htmlEscape StatusText url status ctx).1 in
      Code (response ctx') = status /\
      HeaderMap (response ctx') !! "Location"
      = Some [redirect_target (request ctx) url]).
Proof.
  split.
  - intros W RW ctx url status. cbv zeta. unfold Redirect_.
    unfold StatusMultipleChoices, StatusTemporaryRedirect.
    case_decide as Hout; simpl.
    + split; [|split]; [split; [lia | by eexists] | done | lia].
    + split; [|split]; [split; [intros [? ?]; done | lia] | lia | done].
  - intros ctx url status Hin Hfresh. cbv zeta. unfold Redirect_.
    unfold StatusMultipleChoices, StatusTemporaryRedirect.
    case_decide as Hout; [lia|]. simpl.
    destruct ctx as [g rw r ps]; simpl in *.
    destruct rw as [c hm b wh]; simpl in *. subst wh.
    unfold Redirect. simpl.
    set (hadCT := bool_decide (is_Some (hm !! "Content-Type"))).
    set (tgt := redirect_target r url).
    destruct (negb hadCT && (String.eqb (Method r) "GET" || String.eqb (Method r) "HEAD"));
      destruct (negb hadCT && String.eqb (Method r) "GET"); simpl;
      try (split; [reflexivity|]);
      rewrite ?lookup_insert_ne by discriminate; by rewrite lookup_insert_eq.
Qed.

End RedirectFacts.

(** ** The default error handler, seen on a recorder *)

Section ErrorResponseFacts.
Import Http Slices App.
Context {U : Type}.
Variable code :
  Handler -> Context (W := Recorder) -> Env (U := U) ->
  (Context (W := Recorder) * Env (U := U)) * option error.
Variable error_code :
  nat -> Context (W := Recorder) -> error -> Env (U := U) ->
  (Context (W := Recorder) * Env (U := U)).




End ErrorResponseFacts.

(** ** Groups and their middleware *)

Section GroupFacts.
Import Http Slices App Fixtures.

(** A new group ranges over the middleware its parent has at that time. *)
Lemma Group_inherits_chain (p : string) (c : Cherry) (h : heap (A := Handler)) :
  chain h (Group_Cherry (Group_ p c)) = chain h c.
Proof. reflexivity. Qed.

(** [Reset] empties the list of the group; it returns no other facade and
    no heap, so the parent, the siblings and the arrays stay as they are. *)
Lemma Reset_empties_group (g : Group) (h : heap (A := Handler)) :
  chain h (Group_Cherry (Reset g)) = [].
Proof. reflexivity. Qed.

(** When the slice of the parent has no spare capacity, [Use] on the
    parent allocates, and the group keeps ranging over what it had. *)
Lemma Use_parent_full_keeps_group (grow : nat -> nat -> nat)
  (handlers : list Handler) (parent : Cherry) (g : Cherry) (h : heap (A := Handler)) :
  (cap (middleware parent) < len (middleware parent) + length handlers)%nat ->
  (forall a, arr (middleware g) = Some a -> a < next h)%nat ->
  chain (Use grow handlers parent h).2 g = chain h g.
Proof.
  intros Hfull Hold. unfold Use, append.
  case_decide as Hfit; [lia|]. simpl. unfold chain, elems. simpl.
  destruct (arr (middleware g)) as [a|] eqn:Ha; [|done].
  specialize (Hold a eq_refl). rewrite lookup_insert_ne by lia. done.
Qed.

(** C3, at the input where the code departs from it. The parent gets
    three middleware, one call of [Use] each, which leaves its slice
    with length 3 and capacity 4. A group made then ranges over the
    three; after its own [Use] of handler 4 it ranges over 1, 2, 3, 4.
    A later [Use] of handler 5 on the parent writes into the array
    both slices share: the group now ranges over 1, 2, 3, 5. *)
Theorem group_chain_overwritten_by_parent :
  let '(parent, h0) := use_each [1; 2; 3]%nat (New 0%nat) empty_heap in
  let g := Group_ "/sub" parent in
  let '(g1, h1) := Group_Use nextslicecap [4%nat] g h0 in
  let '(parent', h2) := Use nextslicecap [5%nat] parent h1 in
  middleware parent = mk_slice (Some 2%nat) 3 4 /\
  chain h0 (Group_Cherry g) = [1; 2; 3]%nat /\
  chain h1 (Group_Cherry g1) = [1; 2; 3; 4]%nat /\
  chain h2 (Group_Cherry g1) = [1; 2; 3; 5]%nat /\
  chain h2 parent' = [1; 2; 3; 5]%nat.
Proof. vm_compute. done. Qed.

End GroupFacts.

(** ** Serving a request with and without the access log *)

Section LoggingFacts.
Import Http App Logging.
Context {G Time : Type}.
Variable Format : string -> Time -> string.
Variable SplitHostPort : string -> string * string * option error.
Variable router_ServeHTTP :
  forall (W : Type), ResponseWriter W -> W -> Request -> G -> W * G.

(** The logger hands every call to the writer it wraps and keeps the
    last status and the sum of the byte counts. *)
Lemma do_calls_logger {W : Type} `{ResponseWriter W} (cs : list rw_call)
  (l : responseLogger W) :
  do_calls cs l =
  (mk_responseLogger (do_calls cs (c l)).1
                     (observed_status cs (status l))
                     (observed_size (do_calls cs (c l)).2 (size l)),
   (do_calls cs (c l)).2).
Proof.
  revert l; induction cs as [|call cs IH]; intros [w st sz]; simpl.
  - done.
  - destruct call as [k v|code|p]; simpl.
    + by rewrite IH.
    + by rewrite IH.
    + unfold responseLogger_Write; simpl.
      destruct (Write p w) as [w1 [n err]] eqn:Hw. rewrite IH. simpl.
      destruct (do_calls cs w1) as [w2 ns]. done.
Qed.

(** The router uses the writer it is given through the interface only:
    the calls it makes depend on the request and on its own state. *)
Variable router_calls : Request -> G -> list rw_call.
Variable router_next : Request -> G -> G.
Hypothesis router_script :
  forall (W : Type) (RW : ResponseWriter W) (w : W) (r : Request) (g : G),
    router_ServeHTTP W RW w r g = ((do_calls (router_calls r g) w).1, router_next r g).


End LoggingFacts.

(** ** Starting the server *)

Section StartupFacts.
Import Http App Utils Logging Startup.
Variable banner : string.
Variable Executable : string * option error.
Variable filepath_Dir : string -> string.
Variable Chdir : string -> string -> error + string.
Variable listen_result : listen_call -> string -> error.

Ltac in_small_list H :=
  repeat match type of H with
         | _ ∈ _ :: _ => apply elem_of_cons in H as [H|H]
         | _ ∈ [] => by apply elem_of_nil in H
         end.

(** C9. [serve] first asks for the directory of the path that
    [os.Executable] returned. If the change of directory fails, [serve]
    returns that error and the process has done nothing: no banner, no
    listening. If it succeeds, the change is the first thing the process
    does, the banner is the second, and everything that follows, the
    listening included, happens in the new working directory. [Serve],
    [ServeTLS], [ServeCustom] and [ServeCustomTLS] are calls of [serve]. *)
Theorem serve_changes_directory_first
  (c : Cherry) (addr : string) (files : list string) (p : process) :
  match Chdir (cwd p) (filepath_Dir Executable.1) with
  | inl err =>
      serve banner Executable filepath_Dir Chdir listen_result c addr files p = (p, err)
  | inr dir =>
      exists (rest : list event) (res : error),
        serve banner Executable filepath_Dir Chdir listen_result c addr files p
        = (mk_process dir
             (events p ++ EvChdir dir
                :: EvWrite (Output c) (Colorize ColorRed banner +:+ LF) :: rest),
           res) /\
        (forall ev, ev ∈ rest -> forall d, ev <> EvChdir d) /\
        (forall call, EvListen call ∈ rest -> res = listen_result call dir)
  end /\
  (forall port,
      Serve banner Executable filepath_Dir Chdir listen_result c port p
      = serve banner Executable filepath_Dir Chdir listen_result c (port_addr port) [] p) /\
  (forall port cert key,
      ServeTLS banner Executable filepath_Dir Chdir listen_result c port cert key p
      = serve banner Executable filepath_Dir Chdir listen_result c (port_addr port)
              [cert; key] p) /\
  ServeCustom banner Executable filepath_Dir Chdir listen_result c addr p
  = serve banner Executable filepath_Dir Chdir listen_result c addr [] p /\
  (forall cert key,
      ServeCustomTLS banner Executable filepath_Dir Chdir listen_result c addr cert key p
      = serve banner Executable filepath_Dir Chdir listen_result c addr [cert; key] p).
Proof.
  split; [|done].
  unfold serve. destruct Executable as [packagePath ?]. simpl.
  destruct (Chdir (cwd p) (filepath_Dir packagePath)) as [err|dir]; [done|].
  unfold emit. simpl.
  destruct files as [|cert [|key [|more files]]]; simpl.
  - eexists _, _. rewrite <- !app_assoc. simpl. split; [reflexivity|]. split.
    + intros ev Hev d. in_small_list Hev; by subst.
    + intros call Hcall. in_small_list Hcall; by simplify_eq.
  - exists [], (errors_New "invalid server configuration detected").
    rewrite <- !app_assoc. simpl. split; [reflexivity|]. split.
    + intros ev Hev d. in_small_list Hev; by subst.
    + intros call Hcall. in_small_list Hcall; by simplify_eq.
  - eexists _, _. rewrite <- !app_assoc. simpl. split; [reflexivity|]. split.
    + intros ev Hev d. in_small_list Hev; by subst.
    + intros call Hcall. in_small_list Hcall; by simplify_eq.
  - exists [], (errors_New "invalid server configuration detected").
    rewrite <- !app_assoc. simpl. split; [reflexivity|]. split.
    + intros ev Hev d. in_small_list Hev; by subst.
    + intros call Hcall. in_small_list Hcall; by simplify_eq.
Qed.

End StartupFacts.

(** ** The properties above on the fixtures *)

Section Witnesses.
Import Http Slices App Logging Startup Fixtures.




(** [TestMiddleware] and [TestErrorHandler]: the middleware run in the
    order of their registration; the third fails, so neither the fourth
    nor the terminal handler is called. *)
Example dispatch_TestErrorHandler :
  let o := makeHttpRouterHandle test_code test_error_code 5%nat NewRecorder
             test_request [] (test_env [1; 2; 3; 1]%nat) in
  map who (out_calls o) = [1; 2; 3]%nat /\
  out_handled o = [errors_New "oops! something went wrong"] /\
  user (out_env o) = "ab" /\
  Code (out_response o) = 500.
Proof. vm_compute. done. Qed.

(** [TestContext]: the value attached by the middleware is carried to the
    terminal handler. *)
Example dispatch_TestContext :
  let o := makeHttpRouterHandle test_code test_error_code 5%nat NewRecorder
             test_request [] (test_env [4%nat]) in
  out_calls o = [mk_call 4%nat (Some Background) None;
                 mk_call 5%nat (Some (WithValue Background "m1" "m1")) None].
Proof. vm_compute. done. Qed.

Lemma Redirect_code_validation_witness :
  (Redirect_ (fun _ url => url) id (fun _ => "Moved Permanently") "/new" 200
             (mk_Context None NewRecorder test_request [])).2
  = Some (errors_New "invalid redirect code") /\
  Code (response (Redirect_ (fun _ url => url) id (fun _ => "Moved Permanently")
                            "/new" 301
                            (mk_Context None NewRecorder test_request [])).1) = 301 /\
  HeaderMap (response (Redirect_ (fun _ url => url) id (fun _ => "Moved Permanently")
                                 "/new" 301
                                 (mk_Context None NewRecorder test_request [])).1)
  !! "Location" = Some ["/new"].
Proof.
  destruct (Redirect_code_validation (fun _ url => url) id (fun _ => "Moved Permanently"))
    as [Hgen Hrec].
  split.
  - destruct (Hgen Recorder _ (mk_Context None NewRecorder test_request []) "/new" 200)
      as (_ & Hout & _).
    rewrite Hout; [reflexivity | lia].
  - apply (Hrec (mk_Context None NewRecorder test_request []) "/new" 301);
      [lia | reflexivity].
Defined.





Lemma serve_changes_directory_first_witness :
  serve "BANNER" ("/gone/app", None) Dir_simple Chdir_simple
        (fun _ _ => errors_New "server stopped gracefully")
        (New 0%nat) ":3000" [] (mk_process "/home" [])
  = (mk_process "/home" [],
     errors_New "chdir /gone: no such file or directory") /\
  exists rest res,
    serve "BANNER" ("/opt/cherry/app", None) Dir_simple Chdir_simple
          (fun _ _ => errors_New "server stopped gracefully")
          (New 0%nat) ":3000" [] (mk_process "/home" [])
    = (mk_process "/opt/cherry"
         (EvChdir "/opt/cherry"
            :: EvWrite Stderr (Utils.Colorize Utils.ColorRed "BANNER" +:+ LF) :: rest),
       res).
Proof.
  split.
  - exact (proj1 (serve_changes_directory_first "BANNER" ("/gone/app", None)
                    Dir_simple Chdir_simple
                    (fun _ _ => errors_New "server stopped gracefully")
                    (New 0%nat) ":3000" [] (mk_process "/home" []))).
  - destruct (proj1 (serve_changes_directory_first "BANNER" ("/opt/cherry/app", None)
                       Dir_simple Chdir_simple
                       (fun _ _ => errors_New "server stopped gracefully")
                       (New 0%nat) ":3000" [] (mk_process "/home" [])))
      as (rest & res & Heq & _).
    exists rest, res. exact Heq.
Defined.

End Witnesses.

(** * Further properties of the code *)

(** ** The graceful server over whole runs *)

Section ServerHistoryFacts.
Import Server ServerHistory.

Lemma run_app_bind (tr1 tr2 : list label) (s : sys) :
  run (tr1 ++ tr2) s = run tr1 s ≫= run tr2.
Proof.
  revert s; induction tr1 as [|lbl tr1 IH]; intros s; [done|].
  cbn [app]. rewrite !run_cons. destruct (step lbl s) as [s1|]; [|done].
  cbn [mbind option_bind]. apply IH.
Qed.

Lemma net_connections_app (tr1 tr2 : list label) :
  net_connections (tr1 ++ tr2) = net_connections tr1 + net_connections tr2.
Proof.
  unfold net_connections. induction tr1 as [|lbl tr1 IH]; simpl; [done|].
  rewrite IH. lia.
Qed.

(** One step moves the counter by what the label reports and never makes
    it negative. *)
Lemma step_counter (lbl : label) (p p' : proc) :
  step lbl (Running p) = Some (Running p') ->
  wg (srv p') = wg (srv p) + conn_delta lbl /\ (0 <= wg (srv p) -> 0 <= wg (srv p')).
Proof.
  destruct p as [[ka q fq w] lc ec m n sv].
  destruct lbl as [c| |state|sign|e]; simpl.
  - destruct m; try discriminate. destruct c; simpl.
    + destruct ec as [err|]; [|done].
      destruct (Contains _ _); intros [= <-]; simpl; lia.
    + destruct q; [done|]. intros [= <-]; simpl; lia.
    + destruct fq; [done|]. intros [= <-]; simpl; lia.
  - destruct m; try discriminate. unfold serve_wait; simpl.
    destruct (wg_Wait_ready w); intros [= <-]; simpl; lia.
  - destruct state; simpl; unfold wg_Done, wg_Add; try case_decide;
      intros [= <-]; simpl; lia.
  - destruct n; try discriminate. case_bool_decide; [|done].
    destruct sign; simpl; unfold chan_send; repeat case_decide;
      intros [= <-]; simpl; lia.
  - destruct sv; intros [= <-]; simpl; lia.
Qed.

Lemma run_counter (tr : list label) (p p' : proc) :
  run tr (Running p) = Some (Running p') ->
  0 <= wg (srv p) ->
  wg (srv p') = wg (srv p) + net_connections tr /\ 0 <= wg (srv p').
Proof.
  revert p; induction tr as [|lbl tr IH]; intros p.
  - intros [= <-] Hp. unfold net_connections. simpl. lia.
  - rewrite run_cons.
    destruct (step lbl (Running p)) as [[p1|msg]|] eqn:Hstep; try discriminate;
      cbn [mbind option_bind]; intros Hrun Hp.
    + destruct (step_counter _ _ _ Hstep) as [H1 H2].
      destruct (IH p1 Hrun (H2 Hp)) as [H3 H4].
      split; [|done]. rewrite H3, H1.
      change (lbl :: tr) with ([lbl] ++ tr). rewrite net_connections_app.
      unfold net_connections at 2. simpl. lia.
    + apply run_Crashed in Hrun. discriminate.
Qed.

(** X1. In every state a server reaches while running, the counter of
    the wait group is the number of connections reported new less the
    number reported closed or hijacked, and it is not negative; a
    connection reported closed or hijacked while the counter is zero
    ends the process with the panic of the wait group. *)
Theorem counter_tracks_connections
  (ka : bool) (tr : list label) (p : proc)
  (Hrun : run tr (init ka) = Some (Running p)) :
  wg (srv p) = net_connections tr /\
  0 <= wg (srv p) /\
  (wg (srv p) = 0 ->
   step (LConnState StateClosed) (Running p)
   = Some (Crashed "sync: negative WaitGroup counter") /\
   step (LConnState StateHijacked) (Running p)
   = Some (Crashed "sync: negative WaitGroup counter")).
Proof.
  destruct (run_counter tr _ p Hrun) as [Hwg Hpos]; [simpl; lia|].
  simpl in Hwg. split; [lia|]. split; [done|].
  intros Hzero. simpl. rewrite Hzero. done.
Qed.

Lemma counter_tracks_connections_witness :
  wg (srv (mk_proc (mk_server true 0 0 1) false None AtSelect AwaitSignal true))
  = net_connections [LConnState StateNew; LConnState StateNew; LConnState StateActive;
                     LConnState StateClosed].
Proof.
  exact (proj1 (counter_tracks_connections true
                  [LConnState StateNew; LConnState StateNew; LConnState StateActive;
                   LConnState StateClosed]
                  (mk_proc (mk_server true 0 0 1) false None AtSelect AwaitSignal true)
                  eq_refl)).
Defined.

Lemma signalled_snoc (hist : list label) (lbl : label) :
  signalled (hist ++ [lbl])
  = signalled hist || match lbl with
                      | LSignal sign => graceful_signal sign
                      | _ => false
                      end.
Proof. unfold signalled. rewrite existsb_app. simpl. by rewrite orb_false_r. Qed.

Lemma notified_cases (sign : Signal) :
  sign ∈ notified ->
  sign = SIGTERM \/ sign = SIGQUIT \/ sign = SIGUSR2 \/ sign = SIGINT.
Proof.
  unfold notified. rewrite !elem_of_cons, elem_of_nil. tauto.
Qed.

Ltac hist_auto Hec Hcl :=
  repeat split; try done; try lia;
  try (intros; discriminate);
  try (by apply Hcl);
  try (intros ? ?; apply elem_of_app; left; by apply Hec).

Ltac main_mono Hm :=
  match goal with
  | m : main_pc |- _ =>
      destruct m as [| |?err];
      [done | done
       | destruct Hm as [Hm | [? ?]];
         [by left | right; split; [apply elem_of_app; by left | done]]]
  end.

Lemma history_inv_step (hist : list label) (lbl : label) (s s' : sys) :
  history_inv hist s -> step lbl s = Some s' -> history_inv (hist ++ [lbl]) s'.
Proof.
  destruct s as [p|msg]; [|done].
  destruct p as [[ka q fq w] lc ec m n sv]. simpl.
  intros (Hfq & Hq & Hn & Hnb & Hcl & Hsel & Hq1 & Hec & Hm). subst fq.
  destruct lbl as [c| |state|sign|e]; simpl.
  - destruct m; try discriminate. destruct c; simpl.
    + destruct ec as [err|]; [|done].
      destruct (Contains _ _) eqn:Hc; intros [= <-]; simpl;
        rewrite signalled_snoc, orb_false_r; hist_auto Hec Hcl.
      all: try (by apply Hn). 
      right. split; [|done]. apply elem_of_app. left. by apply Hec.
    + destruct q as [|q]; [done|]. intros [= <-]. simpl.
      rewrite signalled_snoc, orb_false_r.
      assert (q = 0%nat) as -> by lia.
      assert (Hs : signalled hist = true) by (by apply Hq1).
      assert (Hnn : n <> AwaitSignal).
      { intros ->. destruct (Hn eq_refl) as [? _]. discriminate. }
      hist_auto Hec Hcl.
    + done.
  - destruct m; try discriminate. unfold serve_wait; simpl.
    destruct (wg_Wait_ready w); intros [= <-]; simpl.
    rewrite signalled_snoc, orb_false_r. destruct Hm as [Hs Hka].
    hist_auto Hec Hcl. all: try (by apply Hn). by left.
  - destruct (ConnState_hook state w); intros [= <-]; simpl; [|done].
    rewrite signalled_snoc, orb_false_r.
    hist_auto Hec Hcl. all: try (by apply Hn). main_mono Hm.
  - destruct n; try discriminate. case_bool_decide as Hin; [|done].
    destruct (Hn eq_refl) as (-> & Hs & ->).
    apply notified_cases in Hin as [-> | [-> | [-> | ->]]]; simpl;
      intros [= <-]; simpl; try done;
      rewrite signalled_snoc, Hs; simpl; hist_auto Hec Hcl.
    all: destruct m as [| |err];
      [done
      | destruct Hm; congruence
      | destruct Hm as [(_ & Hs' & _) | [He Hc]];
        [congruence | right; split; [apply elem_of_app; by left | done]]].
  - destruct sv; intros [= <-]; simpl.
    rewrite signalled_snoc, orb_false_r.
    hist_auto Hec Hcl. all: try (by apply Hn).
    + intros e' [= <-]. apply elem_of_app. right. by apply list_elem_of_singleton.
    + main_mono Hm.
Qed.

Lemma history_inv_run (tr hist : list label) (s s' : sys) :
  history_inv hist s -> run tr s = Some s' -> history_inv (hist ++ tr) s'.
Proof.
  revert hist s; induction tr as [|lbl tr IH]; intros hist s Hinv.
  - intros [= <-]. by rewrite app_nil_r.
  - rewrite run_cons. destruct (step lbl s) as [s1|] eqn:Hstep; [|done].
    cbn [mbind option_bind]. intros Hrun.
    replace (hist ++ lbl :: tr) with ((hist ++ [lbl]) ++ tr)
      by (by rewrite <- app_assoc).
    eapply IH; [|exact Hrun]. by eapply history_inv_step.
Qed.

Lemma history_inv_reachable (ka : bool) (tr : list label) (s : sys) :
  run tr (init ka) = Some s -> history_inv tr s.
Proof.
  intros Hrun. change tr with ([] ++ tr).
  eapply history_inv_run; [|exact Hrun].
  simpl. repeat split; try done; lia.
Qed.

(** X2. Whatever [serve] returns comes from one of two places: it is
    "server stopped gracefully", and then SIGTERM, SIGQUIT or SIGINT was
    delivered, the listener is closed and keep-alive is disabled; or it
    is the very error [Serve] exited with, whose message does not
    contain "use of closed network connection". *)
Theorem serve_result_origin
  (ka : bool) (tr : list label) (s : sys) (e : error)
  (Hrun : run tr (init ka) = Some s)
  (Hres : result s = Some e) :
  (e = stopped_gracefully /\ signalled tr = true /\
   exists p, s = Running p /\ l_closed p = true /\
             KeepAlivesEnabled (srv p) = false) \/
  (LServeExit e ∈ tr /\ Contains (Error e) useClosedConn = false).
Proof.
  apply history_inv_reachable in Hrun as Hinv.
  destruct s as [p|msg]; [|done]. simpl in Hres, Hinv.
  destruct Hinv as (_ & _ & _ & _ & Hcl & _ & _ & _ & Hm).
  destruct (main p) as [| |err]; try discriminate.
  injection Hres as ->.
  destruct Hm as [(-> & Hs & Hka) | Hserve]; [left | by right].
  split; [done|]. split; [done|]. exists p. split; [done|].
  split; [by apply Hcl | done].
Qed.

Lemma serve_result_origin_witness :
  (stopped_gracefully = stopped_gracefully /\
   signalled [LSignal SIGINT; LSelect CaseQuit; LWait] = true /\
   exists p, Running (mk_proc (mk_server false 0 0 0) true None
                              (Returned stopped_gracefully) NotifyDone true)
             = Running p /\ l_closed p = true /\
             KeepAlivesEnabled (srv p) = false) \/
  (LServeExit stopped_gracefully ∈ [LSignal SIGINT; LSelect CaseQuit; LWait] /\
   Contains (Error stopped_gracefully) useClosedConn = false).
Proof.
  exact (serve_result_origin true [LSignal SIGINT; LSelect CaseQuit; LWait]
           (Running (mk_proc (mk_server false 0 0 0) true None
                             (Returned stopped_gracefully) NotifyDone true))
           stopped_gracefully eq_refl eq_refl).
Defined.

(** X3. While the server runs, the listener is closed exactly when
    SIGTERM, SIGQUIT or SIGINT has been delivered, and from then on
    [closeNotify] has finished: it never waits on a full channel and
    handles no second signal. *)
Theorem listener_closed_iff_signalled
  (ka : bool) (tr : list label) (p : proc)
  (Hrun : run tr (init ka) = Some (Running p)) :
  (l_closed p = true <-> signalled tr = true) /\
  (signalled tr = true -> notifier p = NotifyDone) /\
  (signalled tr = true -> forall sign, step (LSignal sign) (Running p) = None) /\
  notifier p <> BlockedSend.
Proof.
  apply history_inv_reachable in Hrun as Hinv. simpl in Hinv.
  destruct Hinv as (_ & _ & Hn & Hnb & Hcl & _).
  assert (Hdone : signalled tr = true -> notifier p = NotifyDone).
  { intros Hs. destruct (notifier p); [|done|done].
    destruct (Hn eq_refl) as (_ & Hs' & _). congruence. }
  split; [done|]. split; [done|]. split; [|done].
  intros Hs sign. simpl. by rewrite (Hdone Hs).
Qed.

Lemma listener_closed_iff_signalled_witness :
  (l_closed (mk_proc (mk_server true 1 0 0) true None AtSelect NotifyDone true) = true
   <-> signalled [LSignal SIGQUIT] = true) /\
  step (LSignal SIGTERM)
       (Running (mk_proc (mk_server true 1 0 0) true None AtSelect NotifyDone true))
  = None.
Proof.
  destruct (listener_closed_iff_signalled true [LSignal SIGQUIT]
              (mk_proc (mk_server true 1 0 0) true None AtSelect NotifyDone true)
              eq_refl) as (Hiff & _ & Hno & _).
  split; [exact Hiff | exact (Hno eq_refl SIGTERM)].
Defined.

(** Closing as many connections as are open brings the counter to zero. *)
Lemma close_all (n : nat) (p : proc) :
  wg (srv p) = Z.of_nat n ->
  run (replicate n (LConnState StateClosed)) (Running p)
  = Some (Running (set_srv (set_wg 0 (srv p)) p)).
Proof.
  revert p; induction n as [|n IH]; intros [[k q fq w] lc ec m nt sv] Hwg;
    simpl in Hwg; subst w.
  - done.
  - cbn [replicate]. rewrite run_cons. simpl. unfold wg_Done, wg_Add.
    case_decide; [lia|]. cbn [mbind option_bind].
    rewrite IH; simpl; [done | lia].
Qed.

(** X4. Once SIGTERM, SIGQUIT or SIGINT has been delivered and [serve]
    has not returned, it can still stop gracefully from wherever it is:
    after the [quit] case (if it is still at the [select]) and one
    closed connection for each connection open, [Wait] returns and
    [serve] returns "server stopped gracefully" with the counter at
    zero. *)
Theorem graceful_stop_completes
  (ka : bool) (tr : list label) (p : proc)
  (Hrun : run tr (init ka) = Some (Running p))
  (Hsig : signalled tr = true)
  (Hres : result (Running p) = None) :
  exists p',
    run (drain p) (Running p) = Some (Running p') /\
    result (Running p') = Some stopped_gracefully /\
    wg (srv p') = 0 /\
    KeepAlivesEnabled (srv p') = false.
Proof.
  apply history_inv_reachable in Hrun as Hinv. simpl in Hinv.
  destruct Hinv as (_ & _ & _ & _ & _ & Hsel & _ & _ & _).
  destruct (run_counter tr _ p Hrun) as [_ Hpos]; [simpl; lia|].
  destruct p as [[k q fq w] lc ec m nt sv]. simpl in *.
  unfold drain. simpl.
  destruct m as [| |err]; [| |done].
  - rewrite (Hsel Hsig eq_refl). cbn [app]. rewrite run_cons. simpl.
    cbn [mbind option_bind]. rewrite run_app_bind.
    rewrite close_all by (simpl; lia). cbn [mbind option_bind]. simpl.
    eexists. split; [reflexivity|]. done.
  - cbn [app]. rewrite run_app_bind.
    rewrite close_all by (simpl; lia). cbn [mbind option_bind]. simpl.
    apply history_inv_reachable in Hrun as Hinv. simpl in Hinv.
    destruct Hinv as (_ & _ & _ & _ & _ & _ & _ & _ & _ & Hka).
    eexists. split; [reflexivity|]. done.
Qed.

Lemma graceful_stop_completes_witness :
  exists p',
    run [LSelect CaseQuit; LConnState StateClosed; LConnState StateClosed; LWait]
        (Running (mk_proc (mk_server true 1 0 2) true None AtSelect NotifyDone true))
    = Some (Running p') /\
    result (Running p') = Some stopped_gracefully /\
    wg (srv p') = 0 /\
    KeepAlivesEnabled (srv p') = false.
Proof.
  exact (graceful_stop_completes true
           [LConnState StateNew; LConnState StateNew; LSignal SIGTERM]
           (mk_proc (mk_server true 1 0 2) true None AtSelect NotifyDone true)
           eq_refl eq_refl eq_refl).
Defined.

(** X17. While no error of [Serve] waits in [errChan] and none of
    SIGTERM, SIGQUIT and SIGINT has been delivered, no case of the
    [select] is ready. So once [serve] has dropped an error that
    mentions the closed connection, it stays blocked, whatever happens
    to the connections, until such a signal arrives. *)
Theorem serve_blocks_until_signal
  (ka : bool) (tr : list label) (p : proc)
  (Hrun : run tr (init ka) = Some (Running p))
  (Hmain : main p = AtSelect)
  (Herr : errChan p = None)
  (Hsig : signalled tr = false) :
  (forall c, step (LSelect c) (Running p) = None) /\
  step LWait (Running p) = None /\
  (forall state p',
      step (LConnState state) (Running p) = Some (Running p') ->
      forall c, step (LSelect c) (Running p') = None).
Proof.
  apply history_inv_reachable in Hrun as Hinv. simpl in Hinv.
  destruct Hinv as (Hfq & Hq & _ & _ & _ & _ & Hq1 & _).
  destruct p as [[k q fq w] lc ec m nt sv]. simpl in *. subst.
  assert (q = 0%nat) as ->.
  { destruct q as [|[|q]]; [done | | lia]. specialize (Hq1 eq_refl). congruence. }
  split; [by intros []|]. split; [done|].
  intros state p'. destruct (ConnState_hook state w); intros [= <-].
  by intros [].
Qed.

Lemma serve_blocks_until_signal_witness :
  (forall c,
      step (LSelect c)
           (Running (mk_proc (mk_server true 0 0 1) false None AtSelect AwaitSignal false))
      = None) /\
  step LWait
       (Running (mk_proc (mk_server true 0 0 1) false None AtSelect AwaitSignal false))
  = None.
Proof.
  destruct (serve_blocks_until_signal true
              [LConnState StateNew;
               LServeExit (errors_New "use of closed network connection");
               LSelect CaseErrChan]
              (mk_proc (mk_server true 0 0 1) false None AtSelect AwaitSignal false)
              eq_refl eq_refl eq_refl eq_refl) as (H1 & H2 & _).
  split; [exact H1 | exact H2].
Defined.

End ServerHistoryFacts.

(** ** Slices, [Use], [Group] and [Reset] *)

Section SliceFacts.
Import Slices App SliceInv.
Context {A : Type}.
Variable zero : A.
Variable grow : nat -> nat -> nat.
Hypothesis grow_fits : grows grow.

Lemma inserts_split (l xs : list A) (i : nat) :
  (i + length xs <= length l)%nat ->
  list_inserts i xs l = take i l ++ xs ++ drop (i + length xs) l.
Proof.
  intros Hle.
  rewrite <- (take_drop i l) at 1.
  assert (Hi : length (take i l) = i) by (rewrite length_take; lia).
  rewrite <- Hi at 1.
  rewrite <- (Nat.add_0_r (length (take i l))).
  rewrite list_inserts_app_r. f_equal.
  rewrite <- (take_drop (length xs) (drop i l)).
  rewrite list_inserts_0_r.
  - by rewrite drop_drop.
  - rewrite length_take, length_drop. lia.
Qed.

(** [append] returns a slice that holds the old elements followed by the
    new ones, and that fits the new heap. *)
Lemma append_spec (s : slice) (xs : list A) (h : heap) :
  wf_slice h s ->
  elems (append zero grow s xs h).2 (append zero grow s xs h).1 = elems h s ++ xs /\
  wf_slice (append zero grow s xs h).2 (append zero grow s xs h).1 /\
  (next h <= next (append zero grow s xs h).2)%nat /\
  len (append zero grow s xs h).1 = (len s + length xs)%nat.
Proof.
  intros [Hlen Harr]. unfold append.
  case_decide as Hfit.
  - destruct (arr s) as [a|] eqn:Ha.
    + destruct Harr as (Hlt & l & Hl & Hcap). simpl.
      unfold elems, wf_slice. simpl. rewrite Ha, lookup_alter_eq, Hl. simpl.
      split; [|split; [|done]].
      * rewrite inserts_split by lia.
        rewrite take_app_ge by (rewrite length_take; lia).
        rewrite length_take, Nat.min_l by lia.
        rewrite take_app_ge by lia.
        replace (len s + length xs - len s - length xs)%nat with 0%nat by lia.
        by rewrite take_0, app_nil_r.
      * split; [done|]. split; [done|]. eexists. split; [done|].
        by rewrite length_inserts.
    + simpl. assert (xs = []) as -> by (destruct xs; [done | simpl in Hfit; lia]).
      unfold elems, wf_slice. rewrite !Ha. simpl.
      split; [done|]. split; [done | lia].
  - simpl. unfold elems at 1, wf_slice. simpl. rewrite lookup_insert_eq. simpl.
    assert (Hel : length (elems h s) = len s).
    { unfold elems. destruct (arr s) as [a|].
      - destruct Harr as (_ & l & -> & Hcap). simpl. rewrite length_take. lia.
      - simpl. lia. }
    assert (Hg : (len s + length xs <= grow (len s + length xs) (cap s))%nat)
      by (apply grow_fits; lia).
    split; [|split; [|split; [lia | done]]].
    + rewrite app_assoc, take_app_le by (rewrite length_app; lia).
      rewrite take_ge by (rewrite length_app; lia). done.
    + split; [done|]. split; [lia|]. eexists. split; [done|].
      rewrite !length_app, length_replicate. lia.
Qed.

(** A slice that fits the heap before an [append] on another slice fits
    the heap after it. *)
Lemma append_wf_other (s t : slice) (xs : list A) (h : heap) :
  wf_slice h t -> wf_slice (append zero grow s xs h).2 t.
Proof.
  intros [Hlen Harr]. split; [done|].
  destruct (arr t) as [b|]; [|done].
  destruct Harr as (Hlt & l & Hl & Hcap). unfold append.
  case_decide as Hfit.
  - destruct (arr s) as [a|]; simpl; [|by eauto].
    split; [done|]. rewrite lookup_alter. case_decide as Hab.
    + subst. rewrite Hl. simpl. eexists. split; [done|]. by rewrite length_inserts.
    + by eauto.
  - simpl. split; [lia|]. rewrite lookup_insert_ne by lia. by eauto.
Qed.

(** An [append] on [s] leaves the elements of [t] alone when [t] has
    another array, or is not longer than [s], or [s] has no room for
    the new elements. *)
Lemma append_frame (s t : slice) (xs : list A) (h : heap) :
  wf_slice h s -> wf_slice h t ->
  arr t <> arr s \/ (len t <= len s)%nat \/ (cap s < len s + length xs)%nat ->
  elems (append zero grow s xs h).2 t = elems h t.
Proof.
  intros [Hlens Harrs] [Hlent Harrt] Hcases. unfold append.
  case_decide as Hfit.
  - destruct (arr s) as [a|] eqn:Ha; [|done]. simpl.
    unfold elems. destruct (arr t) as [b|] eqn:Hb; [|done]. simpl.
    rewrite lookup_alter. case_decide as Hab; [|done]. subst b.
    destruct Hcases as [Hne | [Hle | Hfull]]; [done | | lia].
    destruct Harrs as (_ & l & Hl & Hcap). rewrite Hl. simpl.
    rewrite inserts_split by lia.
    rewrite take_app_le by (rewrite length_take; lia).
    rewrite take_take. f_equal. lia.
  - simpl. unfold elems. destruct (arr t) as [b|]; [|done]. simpl.
    destruct Harrt as (Hlt & _). by rewrite lookup_insert_ne by lia.
Qed.

(** The array of the slice [append] returns is the old one or the one
    just allocated. *)
Lemma append_arr (s : slice) (xs : list A) (h : heap) :
  arr (append zero grow s xs h).1 = arr s \/
  arr (append zero grow s xs h).1 = Some (next h).
Proof.
  unfold append. case_decide; [|by right].
  destruct (arr s) eqn:Ha; simpl; by left.
Qed.

End SliceFacts.

Section RegistrationFacts.
Import Slices App SliceInv.
Variable grow : nat -> nat -> nat.
Hypothesis grow_fits : grows grow.

Lemma Use_unfold (hs : list Handler) (c : Cherry) (h : heap) :
  Use grow hs c h
  = (set_middleware (append nil_Handler grow (middleware c) hs h).1 c,
     (append nil_Handler grow (middleware c) hs h).2).
Proof. unfold Use. by destruct (append _ _ _ _ _). Qed.

(** One call of [Use] on a facade whose slice fits the heap. *)
Lemma Use_spec (hs : list Handler) (c : Cherry) (h : heap) :
  wf_slice h (middleware c) ->
  chain (Use grow hs c h).2 (Use grow hs c h).1 = chain h c ++ hs /\
  wf_slice (Use grow hs c h).2 (middleware (Use grow hs c h).1) /\
  (next h <= next (Use grow hs c h).2)%nat /\
  len (middleware (Use grow hs c h).1) = (len (middleware c) + length hs)%nat /\
  (arr (middleware (Use grow hs c h).1) = arr (middleware c) \/
   arr (middleware (Use grow hs c h).1) = Some (next h)).
Proof.
  intros Hwf. rewrite Use_unfold. simpl. unfold chain. simpl.
  destruct (append_spec nil_Handler grow grow_fits (middleware c) hs h Hwf)
    as (H1 & H2 & H3 & H4).
  repeat (split; [done|]). apply append_arr.
Qed.

(** What one call of [Use] on [c] leaves of another facade [d]. *)
Lemma Use_frame (hs : list Handler) (c d : Cherry) (h : heap) :
  wf_slice h (middleware c) -> wf_slice h (middleware d) ->
  arr (middleware d) <> arr (middleware c) \/
  (len (middleware d) <= len (middleware c))%nat \/
  (cap (middleware c) < len (middleware c) + length hs)%nat ->
  chain (Use grow hs c h).2 d = chain h d /\
  wf_slice (Use grow hs c h).2 (middleware d).
Proof.
  intros Hc Hd Hcases. rewrite Use_unfold. simpl. split.
  - by apply append_frame.
  - by apply append_wf_other.
Qed.

Lemma Use_apart (hs : list Handler) (c d : Cherry) (h : heap) :
  wf_slice h (middleware c) -> wf_slice h (middleware d) ->
  apart c d -> apart (Use grow hs c h).1 d.
Proof.
  intros Hc Hd Hap.
  destruct (Use_spec hs c h Hc) as (_ & _ & _ & Hlen & [Harr | Harr]).
  - destruct Hap as [Hne | Hle]; [left; congruence | right; lia].
  - left. rewrite Harr. destruct Hd as [_ Hd].
    destruct (arr (middleware d)) as [b|]; [|done].
    destruct Hd as [Hlt _]. intros [= ->]. lia.
Qed.

Lemma use_all_spec (batches : list (list Handler)) (c d : Cherry) (h : heap) :
  wf_slice h (middleware c) -> wf_slice h (middleware d) -> apart c d ->
  chain (use_all grow batches c h).2 (use_all grow batches c h).1
  = chain h c ++ concat batches /\
  chain (use_all grow batches c h).2 d = chain h d /\
  wf_slice (use_all grow batches c h).2 (middleware (use_all grow batches c h).1) /\
  wf_slice (use_all grow batches c h).2 (middleware d) /\
  apart (use_all grow batches c h).1 d /\
  (next h <= next (use_all grow batches c h).2)%nat.
Proof.
  revert c h; induction batches as [|hs rest IH]; intros c h Hc Hd Hap.
  - simpl. by rewrite app_nil_r.
  - cbn [use_all concat].
    destruct (Use_spec hs c h Hc) as (Hchain & Hwf & Hnext & _).
    destruct (Use_frame hs c d h Hc Hd) as (Hd1 & Hd2).
    { destruct Hap as [? | ?]; [by left | right; by left]. }
    pose proof (Use_apart hs c d h Hc Hd Hap) as Hap1.
    destruct (Use grow hs c h) as [c1 h1]. simpl in *.
    destruct (IH c1 h1 Hwf Hd2 Hap1) as (H1 & H2 & H3 & H4 & H5 & H6).
    rewrite H1, H2, Hchain, Hd1, app_assoc. repeat (split; [done|]). lia.
Qed.

Lemma append_arr_full {A : Type} (zero : A) (s : slice) (xs : list A) (h : heap) :
  (cap s < len s + length xs)%nat ->
  arr (append zero grow s xs h).1 = Some (next h).
Proof. intros Hfull. unfold append. case_decide; [lia | done]. Qed.

(** A slice whose array, if any, was allocated at [n] or later keeps
    that property under [Use]. *)
Lemma use_all_fresh (n : nat) (batches : list (list Handler)) (c : Cherry) (h : heap) :
  wf_slice h (middleware c) -> (n <= next h)%nat ->
  (forall b, arr (middleware c) = Some b -> (n <= b)%nat) ->
  forall b, arr (middleware (use_all grow batches c h).1) = Some b -> (n <= b)%nat.
Proof.
  revert c h; induction batches as [|hs rest IH]; intros c h Hc Hn Hfresh; [done|].
  cbn [use_all].
  destruct (Use_spec hs c h Hc) as (_ & Hwf & Hnext & _ & Harr).
  destruct (Use grow hs c h) as [c1 h1]. simpl in *.
  apply IH; [done | lia |].
  intros b Hb. destruct Harr as [Harr | Harr]; rewrite Harr in Hb.
  - by apply Hfresh.
  - injection Hb as <-. done.
Qed.

(** X5. On a facade whose slice fits the heap, any number of calls of
    [Use] leaves the middleware in the order of the calls and, within a
    call, of the arguments: the chain is the old chain followed by all
    the handlers given. *)
Theorem Use_appends_in_call_order
  (batches : list (list Handler)) (c : Cherry) (h : heap)
  (Hwf : wf_slice h (middleware c)) :
  chain (use_all grow batches c h).2 (use_all grow batches c h).1
  = chain h c ++ concat batches.
Proof.
  apply (use_all_spec batches c c h Hwf Hwf). right. done.
Qed.

(** X6. A group made from [c] and then given middleware by any number of
    calls of [Use] ranges over the chain [c] had when the group was
    made, followed by its own handlers in order; these calls leave the
    chain of [c] as it was. *)
Theorem group_extends_parent_chain
  (p : string) (batches : list (list Handler)) (c : Cherry) (h : heap)
  (Hwf : wf_slice h (middleware c)) :
  let g := Group_Cherry (Group_ p c) in
  chain (use_all grow batches g h).2 (use_all grow batches g h).1
  = chain h c ++ concat batches /\
  chain (use_all grow batches g h).2 c = chain h c /\
  prefix g = prefix c +:+ p.
Proof.
  cbv zeta.
  destruct (use_all_spec batches (Group_Cherry (Group_ p c)) c h Hwf Hwf)
    as (H1 & H2 & _).
  { right. done. }
  done.
Qed.

(** X7. After [Reset] a group is on its own: its chain is exactly the
    handlers it is given afterwards; giving them changes the chain of
    no facade that exists already; and a later [Use] on such a facade
    does not change the chain of the group. *)
Theorem Reset_isolates_group
  (g : Group) (batches : list (list Handler)) (ys : list Handler)
  (c : Cherry) (h : heap)
  (Hwf : wf_slice h (middleware c)) :
  let r := use_all grow batches (Group_Cherry (Reset g)) h in
  chain r.2 r.1 = concat batches /\
  chain r.2 c = chain h c /\
  chain (Use grow ys c r.2).2 r.1 = concat batches /\
  chain (Use grow ys c r.2).2 (Use grow ys c r.2).1 = chain h c ++ ys.
Proof.
  cbv zeta.
  assert (Hnil : wf_slice h (middleware (Group_Cherry (Reset g)))).
  { split; simpl; [lia | done]. }
  assert (Hap : apart (Group_Cherry (Reset g)) c).
  { destruct Hwf as [Hlen Harr]. destruct (arr (middleware c)) as [a|] eqn:Ha.
    - left. simpl. by rewrite Ha.
    - right. simpl. lia. }
  destruct (use_all_spec batches (Group_Cherry (Reset g)) c h Hnil Hwf Hap)
    as (H1 & H2 & H3 & H4 & _ & H6).
  pose proof (use_all_fresh (next h) batches (Group_Cherry (Reset g)) h Hnil
                (le_n _) (fun b (Hb : None = Some b) => ltac:(discriminate)))
    as Hfresh.
  set (r := use_all grow batches (Group_Cherry (Reset g)) h) in *.
  assert (H1' : chain r.2 r.1 = concat batches) by exact H1.
  split; [exact H1'|]. split; [exact H2|].
  destruct (Use_spec ys c r.2 H4) as (Hc & _).
  rewrite Hc, H2. split; [|done].
  rewrite <- H1'. apply (Use_frame ys c r.1 r.2 H4 H3).
  destruct (arr (middleware r.1)) as [b|] eqn:Hb.
  - left. destruct Hwf as [_ Harr].
    destruct (arr (middleware c)) as [a|]; [|done].
    destruct Harr as [Hlt _]. specialize (Hfresh b eq_refl).
    intros [= ->]. lia.
  - right. left. destruct H3 as [Hlen Hcap]. rewrite Hb in Hcap. lia.
Qed.

(** X8. When the slice of [c] is full (its length is its capacity) at
    the time a group is made from it, the two do not disturb each
    other, whichever is extended first: after a [Use] on each, the
    group ranges over the old chain and its own handlers, and [c] over
    the old chain and its own. *)
Theorem full_parent_and_group_independent
  (p : string) (hs ys : list Handler) (c : Cherry) (h : heap)
  (Hwf : wf_slice h (middleware c))
  (Hfull : len (middleware c) = cap (middleware c))
  (Hys : ys <> []) :
  let g := Group_Cherry (Group_ p c) in
  (let r1 := Use grow hs g h in
   let r2 := Use grow ys c r1.2 in
   chain r2.2 r1.1 = chain h c ++ hs /\ chain r2.2 r2.1 = chain h c ++ ys) /\
  (let r1 := Use grow ys c h in
   let r2 := Use grow hs g r1.2 in
   chain r2.2 r2.1 = chain h c ++ hs /\ chain r2.2 r1.1 = chain h c ++ ys).
Proof.
  cbv zeta.
  assert (Hlen : (0 < length ys)%nat) by (destruct ys; [done | simpl; lia]).
  set (g := Group_Cherry (Group_ p c)).
  assert (Hg : wf_slice h (middleware g)) by done.
  split.
  - destruct (Use_spec hs g h Hg) as (Hgc & Hgwf & _).
    destruct (Use_frame hs g c h Hg Hwf) as (Hcc & Hcwf).
    { right. left. done. }
    destruct (Use_spec ys c _ Hcwf) as (Hc2 & _).
    destruct (Use_frame ys c (Use grow hs g h).1 _ Hcwf Hgwf) as (Hg2 & _).
    { right. right. lia. }
    rewrite Hg2, Hgc, Hc2, Hcc. done.
  - destruct (Use_spec ys c h Hwf) as (Hcc & Hcwf & _).
    destruct (Use_frame ys c g h Hwf Hg) as (Hgc & Hgwf).
    { right. left. done. }
    destruct (Use_spec hs g _ Hgwf) as (Hg2 & _).
    destruct (Use_frame hs g (Use grow ys c h).1 _ Hgwf Hcwf) as (Hc2 & _).
    { left. rewrite Use_unfold. simpl.
      rewrite append_arr_full by lia.
      change (middleware g) with (middleware c).
      destruct Hwf as [_ Harr]. destruct (arr (middleware c)) as [a|]; [|done].
      destruct Harr as [Hlt _]. intros [= Heq]. lia. }
    rewrite Hg2, Hgc, Hc2, Hcc. done.
Qed.

End RegistrationFacts.

Section RegistrationWitnesses.
Import Slices App SliceInv Fixtures Facades.

Lemma grow_quarter_fits (fuel newLen newcap : nat) :
  (newLen <= grow_quarter fuel newLen newcap)%nat.
Proof.
  revert newcap; induction fuel as [|fuel IH]; intros newcap; simpl; [done|].
  case_decide; [done | apply IH].
Qed.

(** The growth of the runtime gives at least the length asked for. *)
Lemma nextslicecap_grows : grows nextslicecap.
Proof.
  intros n c Hlt. unfold nextslicecap.
  repeat case_decide; [done | lia | apply grow_quarter_fits].
Qed.

Lemma wf_nil_slice : wf_slice (A := Handler) empty_heap nil_slice.
Proof. split; simpl; [lia | done]. Qed.

Lemma Use_appends_in_call_order_witness :
  chain (use_all nextslicecap [[1; 2]; []; [3]]%nat (New 0%nat) empty_heap).2
        (use_all nextslicecap [[1; 2]; []; [3]]%nat (New 0%nat) empty_heap).1
  = [1; 2; 3]%nat.
Proof.
  exact (Use_appends_in_call_order nextslicecap nextslicecap_grows
           [[1; 2]; []; [3]]%nat (New 0%nat) empty_heap wf_nil_slice).
Defined.

Lemma new_facade_wf (batches : list (list Handler)) (r : nat) :
  wf_slice (use_all nextslicecap batches (New r) empty_heap).2
           (middleware (use_all nextslicecap batches (New r) empty_heap).1).
Proof.
  destruct (use_all_spec nextslicecap nextslicecap_grows batches (New r) (New r)
              empty_heap wf_nil_slice wf_nil_slice) as (_ & _ & Hwf & _).
  - right. done.
  - exact Hwf.
Qed.

Lemma group_extends_parent_chain_witness :
  let g := Group_Cherry (Group_ "/sub" three_calls.1) in
  chain (use_all nextslicecap [[4]; [5]]%nat g three_calls.2).2
        (use_all nextslicecap [[4]; [5]]%nat g three_calls.2).1
  = chain three_calls.2 three_calls.1 ++ concat [[4]; [5]]%nat /\
  chain (use_all nextslicecap [[4]; [5]]%nat g three_calls.2).2 three_calls.1
  = chain three_calls.2 three_calls.1 /\
  prefix g = prefix three_calls.1 +:+ "/sub".
Proof.
  exact (group_extends_parent_chain nextslicecap nextslicecap_grows "/sub"
           [[4]; [5]]%nat three_calls.1 three_calls.2
           (new_facade_wf [[1]; [2]; [3]]%nat 0%nat)).
Defined.

Lemma Reset_isolates_group_witness :
  let r := use_all nextslicecap [[4]; [5]]%nat
             (Group_Cherry (Reset (Group_ "/sub" three_calls.1))) three_calls.2 in
  chain r.2 r.1 = concat [[4]; [5]]%nat /\
  chain r.2 three_calls.1 = chain three_calls.2 three_calls.1 /\
  chain (Use nextslicecap [6%nat] three_calls.1 r.2).2 r.1 = concat [[4]; [5]]%nat /\
  chain (Use nextslicecap [6%nat] three_calls.1 r.2).2
        (Use nextslicecap [6%nat] three_calls.1 r.2).1
  = chain three_calls.2 three_calls.1 ++ [6%nat].
Proof.
  exact (Reset_isolates_group nextslicecap nextslicecap_grows
           (Group_ "/sub" three_calls.1) [[4]; [5]]%nat [6%nat]
           three_calls.1 three_calls.2 (new_facade_wf [[1]; [2]; [3]]%nat 0%nat)).
Defined.

Lemma full_parent_and_group_independent_witness :
  let g := Group_Cherry (Group_ "/friends" one_call.1) in
  (let r1 := Use nextslicecap [3; 4]%nat g one_call.2 in
   let r2 := Use nextslicecap [5%nat] one_call.1 r1.2 in
   chain r2.2 r1.1 = chain one_call.2 one_call.1 ++ [3; 4]%nat /\
   chain r2.2 r2.1 = chain one_call.2 one_call.1 ++ [5%nat]) /\
  (let r1 := Use nextslicecap [5%nat] one_call.1 one_call.2 in
   let r2 := Use nextslicecap [3; 4]%nat g r1.2 in
   chain r2.2 r2.1 = chain one_call.2 one_call.1 ++ [3; 4]%nat /\
   chain r2.2 r1.1 = chain one_call.2 one_call.1 ++ [5%nat]).
Proof.
  apply (full_parent_and_group_independent nextslicecap nextslicecap_grows
           "/friends" [3; 4]%nat [5%nat] one_call.1 one_call.2
           (new_facade_wf [[1; 2]]%nat 0%nat)).
  - reflexivity.
  - discriminate.
Defined.

End RegistrationWitnesses.

(** ** The chain: how the carried context and the error handler behave *)

Section DispatchMoreFacts.
Import Http Slices App.
Context {W : Type} `{ResponseWriter W} {U : Type}.
Variable code :
  Handler -> Context (W := W) -> Env (U := U) ->
  (Context (W := W) * Env (U := U)) * option error.
Variable error_code :
  nat -> Context (W := W) -> error -> Env (U := U) ->
  (Context (W := W) * Env (U := U)).

(** Within the loop: the first call is given the context the loop
    started with, each later call what the call before it left, and a
    loop that ends without error leaves what its last call left. *)
Lemma run_middleware_carried (mws : list Handler) (ctx ctx' : Context) (e e' : Env)
  (cs : list call) (r : option error) :
  run_middleware code mws ctx e = (ctx', e', cs, r) ->
  (forall c, head cs = Some c -> carried c = Context_ ctx) /\
  (forall i c c' f,
      cs !! i = Some c -> cs !! S i = Some c' ->
      (forall ctx0 e0, Context_ (code (who c) ctx0 e0).1.1 = f (Context_ ctx0)) ->
      carried c' = f (carried c)) /\
  (r = None ->
   (cs = [] -> Context_ ctx' = Context_ ctx) /\
   (forall c f,
       last cs = Some c ->
       (forall ctx0 e0, Context_ (code (who c) ctx0 e0).1.1 = f (Context_ ctx0)) ->
       Context_ ctx' = f (carried c))).
Proof.
  revert ctx e cs; induction mws as [|m rest IH]; intros ctx e cs; simpl.
  - intros [= <- <- <- <-]. split; [done|]. split; [|done].
    intros i c c' f Hc. by rewrite lookup_nil in Hc.
  - destruct (code m ctx e) as [[ctx1 e1] [err|]] eqn:Hcode.
    + intros [= <- <- <- <-]. split; [by intros c [= <-]|]. split; [|done].
      intros [|i] c c' f Hc Hc'; simpl in *; [done|].
      by rewrite lookup_nil in Hc.
    + destruct (run_middleware code rest ctx1 e1) as [[[ctx2 e2] cs2] r2] eqn:Hrun.
      intros [= <- <- <- <-].
      destruct (IH _ _ _ Hrun) as (Hhead & Hnext & Hlast).
      assert (Hm : forall f,
        (forall ctx0 e0, Context_ (code m ctx0 e0).1.1 = f (Context_ ctx0)) ->
        Context_ ctx1 = f (Context_ ctx)).
      { intros f Hf. specialize (Hf ctx e). by rewrite Hcode in Hf. }
      split; [by intros c [= <-]|]. split.
      * intros [|i] c c' f Hc Hc' Hf; simpl in Hc, Hc'.
        -- injection Hc as <-. simpl in *.
           rewrite (Hhead c'); [by apply Hm|]. by destruct cs2; simplify_eq/=.
        -- by eapply Hnext.
      * intros ->. destruct (Hlast eq_refl) as [Hnil Hl]. split; [done|].
        intros c f Hc Hf. destruct cs2 as [|c2 cs2].
        -- simpl in Hc. injection Hc as <-. simpl in *.
           rewrite (Hnil eq_refl). by apply Hm.
        -- by apply Hl.
Qed.

(** X9. In a run of the handle every handler after the first is given, as
    [ctx.Context], what the handler called just before it left there:
    if that handler always leaves [f] of what it finds, the next one
    finds [f] of what that one was given. *)
Theorem carried_context_flows_forward
  (h : Handler) (rw : W) (r : Request) (params : Params) (e : Env)
  (i : nat) (c c' : call) (f : option GoContext -> option GoContext)
  (Hc : out_calls (makeHttpRouterHandle code error_code h rw r params e) !! i = Some c)
  (Hc' : out_calls (makeHttpRouterHandle code error_code h rw r params e) !! S i
         = Some c')
  (Hf : forall ctx0 e0, Context_ (code (who c) ctx0 e0).1.1 = f (Context_ ctx0)) :
  carried c' = f (carried c).
Proof.
  revert Hc Hc'. unfold makeHttpRouterHandle.
  destruct (run_middleware code _ _ _) as [[[ctx1 e1] cs] r1] eqn:Hrun.
  destruct (run_middleware_carried _ _ _ _ _ _ _ Hrun) as (Hhead & Hnext & Hlast).
  destruct r1 as [err|].
  - destruct (call_ErrorHandler _ _ _ _ _) as [ctx2 e2]. simpl.
    intros Hc Hc'. by eapply Hnext.
  - destruct (Hlast eq_refl) as [Hnil Hl].
    destruct (code h ctx1 e1) as [[ctx2 e2] r2] eqn:Hcode.
    assert (Hgen : forall t,
      (cs ++ [t]) !! i = Some c -> (cs ++ [t]) !! S i = Some c' ->
      carried t = Context_ ctx1 -> carried c' = f (carried c)).
    { intros t Hc Hc' Ht.
      destruct (decide (S i < length cs)%nat) as [Hlt|Hge].
      - rewrite lookup_app_l in Hc by lia. rewrite lookup_app_l in Hc' by lia.
        by eapply Hnext.
      - assert (S i = length cs) as Hi.
        { apply lookup_lt_Some in Hc'. rewrite length_app in Hc'. simpl in Hc'. lia. }
        rewrite lookup_app_l in Hc by lia.
        rewrite Hi, list_lookup_middle in Hc' by done. injection Hc' as <-.
        rewrite Ht. apply Hl; [|done].
        rewrite last_lookup. rewrite <- Hi. simpl. exact Hc. }
    destruct r2 as [err|].
    + destruct (call_ErrorHandler _ _ _ _ _) as [ctx3 e3]. simpl.
      intros Hc Hc'. by eapply Hgen.
    + simpl. intros Hc Hc'. by eapply Hgen.
Qed.


End DispatchMoreFacts.

(** ** The response helpers on a recorder *)

Section ResponseFacts.
Import Http App Logging Responses.

(** X11. [Text] never fails. For status codes [WriteHeader] accepts, on
    a recorder it adds the text to the body and sets the content type
    to text/plain; the status becomes the one
    given only if no header was written before. So of two calls of
    [Text] on a fresh recorder the first decides the status and the
    body holds both texts. *)
Theorem Text_on_recorder
  (status status' : Z) (text text' : string) (ctx : Context (W := Recorder))
  (Hvalid : valid_status status) (Hvalid' : valid_status status') :
  let r := Text status text ctx in
  let r' := Text status' text' r.1 in
  r.2 = None /\
  Body (response r.1) = Body (response ctx) +:+ text /\
  HeaderMap (response r.1) !! "Content-Type" = Some ["text/plain"] /\
  Code (response r.1)
  = (if wroteHeader (response ctx) then Code (response ctx) else status) /\
  Context_ r.1 = Context_ ctx /\
  Code (response r'.1) = Code (response r.1) /\
  Body (response r'.1) = Body (response ctx) +:+ text +:+ text'.
Proof.
  destruct ctx as [g [c hm b wh] rq ps]. cbv zeta. unfold Text, Response. simpl.
  unfold Recorder_Write, Recorder_WriteHeader. simpl.
  destruct wh; simpl; rewrite lookup_insert_eq, <- append_assoc; done.
Qed.

Lemma Text_on_recorder_witness :
  let ctx := mk_Context None NewRecorder Fixtures.test_request [] in
  let r := Text 201 "made" ctx in
  let r' := Text 500 " twice" r.1 in
  r.2 = None /\
  Body (response r.1) = Body (response ctx) +:+ "made" /\
  HeaderMap (response r.1) !! "Content-Type" = Some ["text/plain"] /\
  Code (response r.1)
  = (if wroteHeader (response ctx) then Code (response ctx) else 201) /\
  Context_ r.1 = Context_ ctx /\
  Code (response r'.1) = Code (response r.1) /\
  Body (response r'.1) = Body (response ctx) +:+ "made" +:+ " twice".
Proof.
  apply (Text_on_recorder 201 500 "made" " twice"
           (mk_Context None NewRecorder Fixtures.test_request []));
    unfold valid_status; lia.
Defined.

Section JSONFacts.
Context {V : Type}.
Variable json_Marshal : V -> error + string.

(** X12. [JSON] writes the status before it encodes. For a status code
    [WriteHeader] accepts, on a recorder with no header written yet: if the value encodes to [bytes], [JSON]
    returns nil and the response has the status given, the content type
    application/json and [bytes] with a line feed added to the body; if
    encoding fails with [err], [JSON] returns [err], nothing is added to
    the body, and the status given is already set, so that the default
    error handler, called with [err], adds its message but leaves that
    status. *)
Theorem JSON_on_recorder
  (status : Z) (v : V) (ctx : Context (W := Recorder))
  (Hvalid : valid_status status)
  (Hfresh : wroteHeader (response ctx) = false) :
  let r := JSON json_Marshal status v ctx in
  Code (response r.1) = status /\
  HeaderMap (response r.1) !! "Content-Type" = Some ["application/json"] /\
  match json_Marshal v with
  | inr bytes =>
      r.2 = None /\ Body (response r.1) = Body (response ctx) +:+ bytes +:+ LF
  | inl err =>
      r.2 = Some err /\ Body (response r.1) = Body (response ctx) /\
      Code (response (errorHandler r.1 err)) = status /\
      Body (response (errorHandler r.1 err))
      = Body (response ctx) +:+ Error err +:+ LF
  end.
Proof.
  destruct ctx as [g [c hm b wh] rq ps]. simpl in Hfresh. subst wh.
  cbv zeta. unfold JSON, Response. simpl.
  destruct (json_Marshal v) as [err|bytes]; simpl;
    rewrite lookup_insert_eq; done.
Qed.

End JSONFacts.

Lemma JSON_on_recorder_witness :
  let marshal := fun v : bool =>
    if v then inr "{}" else inl (errors_New "json: unsupported type") in
  let ctx := mk_Context None NewRecorder Fixtures.test_request [] in
  let r := JSON marshal 201 false ctx in
  Code (response r.1) = 201 /\
  HeaderMap (response r.1) !! "Content-Type" = Some ["application/json"] /\
  r.2 = Some (errors_New "json: unsupported type") /\
  Body (response r.1) = Body (response ctx) /\
  Code (response (errorHandler r.1 (errors_New "json: unsupported type"))) = 201 /\
  Body (response (errorHandler r.1 (errors_New "json: unsupported type")))
  = Body (response ctx) +:+ "json: unsupported type" +:+ LF.
Proof.
  apply (JSON_on_recorder
           (fun v : bool =>
              if v then inr "{}" else inl (errors_New "json: unsupported type"))
           201 false (mk_Context None NewRecorder Fixtures.test_request [])).
  - unfold valid_status; lia.
  - reflexivity.
Defined.

End ResponseFacts.

(** ** The response logger *)

Section LoggerFacts.
Import Http App Logging Responses.

Lemma string_length_append (s t : string) :
  String.length (s +:+ t) = (String.length s + String.length t)%nat.
Proof.
  induction s as [|a s IH]; [done|].
  change (S (String.length (s +:+ t)) = S (String.length s + String.length t)).
  by rewrite IH.
Qed.

Lemma int_wrap_small (z : Z) : - 2 ^ 63 <= z < 2 ^ 63 -> int_wrap z = z.
Proof. intros Hz. unfold int_wrap. rewrite Z.mod_small; lia. Qed.

Lemma observed_status_app (pre post : list rw_call) (st : Z) :
  observed_status (pre ++ post) st = observed_status post (observed_status pre st).
Proof.
  revert st; induction pre as [|call pre IH]; intros st; [done|].
  destruct call; simpl; apply IH.
Qed.

Lemma observed_status_no_header (cs : list rw_call) (st : Z) :
  writes_header cs = false ->
  observed_status cs st
  = if writes_body cs then (if decide (st = 0) then StatusOK else st) else st.
Proof.
  revert st; induction cs as [|call cs IH]; intros st; [done|].
  destruct call as [k v|code|p]; simpl; intros Hno; [by apply IH | done |].
  rewrite (IH _ Hno). unfold StatusOK.
  destruct (writes_body cs); repeat case_decide; try done; lia.
Qed.

(** X13. The status a response logger reports after the calls of a
    handler: 0 if the handler called neither [WriteHeader] nor [Write]
    (although the client is then sent 200); 200 if it wrote a body
    without calling [WriteHeader]; and otherwise the code of the last
    call of [WriteHeader], if that code is not 0. *)
Theorem logger_status
  {W : Type} `{ResponseWriter W} (w : W) (cs : list rw_call) :
  let l := (do_calls cs (mk_responseLogger w 0 0)).1 in
  (writes_header cs = false ->
   Status l = if writes_body cs then 200 else 0) /\
  (forall pre code post,
      cs = pre ++ CallWriteHeader code :: post ->
      writes_header post = false -> code <> 0 ->
      Status l = code).
Proof.
  cbv zeta. rewrite do_calls_logger. unfold Status. simpl. split.
  - intros Hno. rewrite observed_status_no_header by done.
    destruct (writes_body cs); done.
  - intros pre code post -> Hno Hcode.
    rewrite observed_status_app. simpl.
    rewrite observed_status_no_header by done.
    destruct (writes_body post); [|done]. by case_decide.
Qed.

Lemma logger_status_witness :
  Status (do_calls [CallHeaderSet "X-A" "1"; CallWrite "hello"]
                   (mk_responseLogger NewRecorder 0 0)).1 = 200 /\
  Status (do_calls [CallWriteHeader 200; CallWrite "hi"; CallWriteHeader 500;
                    CallWrite "oops"]
                   (mk_responseLogger NewRecorder 0 0)).1 = 500.
Proof.
  split.
  - exact (proj1 (logger_status NewRecorder [CallHeaderSet "X-A" "1"; CallWrite "hello"])
             eq_refl).
  - exact (proj2 (logger_status NewRecorder
                    [CallWriteHeader 200; CallWrite "hi"; CallWriteHeader 500;
                     CallWrite "oops"])
             [CallWriteHeader 200; CallWrite "hi"] 500 [CallWrite "oops"]
             eq_refl eq_refl ltac:(discriminate)).
Defined.

(** What a sequence of calls leaves on a recorder. *)
Lemma do_calls_recorder (cs : list rw_call) (rec : Recorder) :
  Body (do_calls cs rec).1 = Body rec +:+ body_written cs /\
  Code (do_calls cs rec).1
  = (if wroteHeader rec then Code rec else default (Code rec) (sent_status cs)) /\
  (forall k, sets_header k cs = false ->
             HeaderMap (do_calls cs rec).1 !! k = HeaderMap rec !! k) /\
  Forall (fun n => 0 <= n) (do_calls cs rec).2 /\
  foldr Z.add 0 (do_calls cs rec).2 = Z.of_nat (String.length (body_written cs)).
Proof.
  revert rec; induction cs as [|call cs IH]; intros [c hm b wh].
  - simpl. split; [|by destruct wh].
    clear. induction b as [|a b IH]; [done|].
    change (String a b = String a (b +:+ "")). by rewrite <- IH.
  - destruct call as [k v|code|p]; simpl.
    + destruct (IH (mk_Recorder c (<[k:=[v]]> hm) b wh))
        as (H1 & H2 & H3 & H4 & H5). simpl in *.
      repeat (split; [done|]). split; [|done].
      intros k' Hk'. apply orb_false_iff in Hk' as [Hne Hk'].
      rewrite (H3 k' Hk'). apply bool_decide_eq_false in Hne.
      by rewrite lookup_insert_ne.
    + destruct (IH (Recorder_WriteHeader code (mk_Recorder c hm b wh)))
        as (H1 & H2 & H3 & H4 & H5).
      unfold Recorder_WriteHeader in *. destruct wh; simpl in *; done.
    + unfold Recorder_Write, Recorder_WriteHeader. simpl.
      destruct (IH (mk_Recorder (if wh then c else 200) hm (b +:+ p) true))
        as (H1 & H2 & H3 & H4 & H5).
      destruct (do_calls cs _) as [w' ns] eqn:Hdo. simpl in *.
      destruct wh; simpl in *.
      all: rewrite Hdo in *; simpl in *.
      all: rewrite H1, H2, H5, string_length_append, <- append_assoc.
      all: repeat (split; [done|]); split; [constructor; [lia | done] | lia].
Qed.

Lemma observed_size_sum (ns : list Z) (sz : Z) :
  Forall (fun n => 0 <= n) ns -> 0 <= sz -> sz + foldr Z.add 0 ns < 2 ^ 63 ->
  observed_size ns sz = sz + foldr Z.add 0 ns.
Proof.
  unfold observed_size. intros Hns; revert sz.
  induction Hns as [|n ns Hn Hns IH]; intros sz Hsz Hsum; simpl in *; [lia|].
  assert (0 <= foldr Z.add 0 ns).
  { clear -Hns. induction Hns; simpl; lia. }
  rewrite int_wrap_small by lia. rewrite IH; lia.
Qed.

(** X14. A response logger around a recorder that has sent no header,
    under calls whose status codes [WriteHeader] accepts:
    the recorder ends exactly as it would without the logger, its body
    extended by what the handler wrote; the size the logger reports is
    the number of bytes written (below 2^63); the recorder keeps the
    first status sent while the logger reports the last, so when a
    handler calls [WriteHeader] with [a] first and with [b] last, the
    response has status [a] and the logger reports [b]. *)
Theorem logger_on_recorder
  (rec : Recorder) (cs : list rw_call)
  (Hvalid : valid_calls cs)
  (Hfresh : wroteHeader rec = false)
  (Hsmall : Z.of_nat (String.length (body_written cs)) < 2 ^ 63) :
  let l := (do_calls cs (mk_responseLogger rec 0 0)).1 in
  c l = (do_calls cs rec).1 /\
  Body (c l) = Body rec +:+ body_written cs /\
  Size l = Z.of_nat (String.length (body_written cs)) /\
  Code (c l) = default (Code rec) (sent_status cs) /\
  (forall a b mid,
      cs = CallWriteHeader a :: mid ++ [CallWriteHeader b] -> b <> 0 ->
      Code (c l) = a /\ Status l = b).
Proof.
  cbv zeta. rewrite do_calls_logger. unfold Size, Status. simpl.
  destruct (do_calls_recorder cs rec) as (Hbody & Hcode & _ & Hpos & Hsum).
  rewrite Hfresh in Hcode.
  split; [done|]. split; [done|]. split.
  { rewrite observed_size_sum; [lia | done | lia | lia]. }
  split; [done|].
  intros a b mid -> Hb. split.
  - by rewrite Hcode.
  - change (CallWriteHeader a :: mid ++ [CallWriteHeader b])
      with ((CallWriteHeader a :: mid) ++ [CallWriteHeader b]).
    by rewrite observed_status_app.
Qed.

Lemma logger_on_recorder_witness :
  let cs := [CallWriteHeader 200; CallWrite "hi"; CallWriteHeader 500] in
  let l := (do_calls cs (mk_responseLogger NewRecorder 0 0)).1 in
  c l = (do_calls cs NewRecorder).1 /\
  Body (c l) = Body NewRecorder +:+ body_written cs /\
  Size l = Z.of_nat (String.length (body_written cs)) /\
  Code (c l) = default (Code NewRecorder) (sent_status cs) /\
  Code (c l) = 200 /\ Status l = 500.
Proof.
  destruct (logger_on_recorder NewRecorder
              [CallWriteHeader 200; CallWrite "hi"; CallWriteHeader 500])
    as (H1 & H2 & H3 & H4 & H5).
  - intros code Hin. unfold valid_status.
    repeat (apply elem_of_cons in Hin as [Hin|Hin]; [simplify_eq; lia|]).
    by apply elem_of_nil in Hin.
  - reflexivity.
  - vm_compute. reflexivity.
  - destruct (H5 200 500 [CallWrite "hi"] eq_refl ltac:(discriminate)) as [Ha Hb].
    cbv zeta. repeat split; assumption.
Defined.

End LoggerFacts.

(** ** The header every response carries *)

Section ServerHeaderFacts.
Import Http App Logging Responses.
Context {G Time : Type}.
Variable Format : string -> Time -> string.
Variable SplitHostPort : string -> string * string * option error.
Variable router_ServeHTTP :
  forall (W : Type), ResponseWriter W -> W -> Request -> G -> W * G.
Variable router_calls : Request -> G -> list rw_call.
Variable router_next : Request -> G -> G.
Hypothesis router_script :
  forall (W : Type) (RW : ResponseWriter W) (w : W) (r : Request) (g : G),
    router_ServeHTTP W RW w r g = ((do_calls (router_calls r g) w).1, router_next r g).


End ServerHeaderFacts.

Section MoreWitnesses.
Import Http Slices App Logging Startup Fixtures Responses.


Lemma carried_context_flows_forward_witness :
  Some (WithValue Background "m1" "m1") = attach "m1" "m1" (Some Background).
Proof.
  exact (carried_context_flows_forward test_code test_error_code 5%nat NewRecorder
           test_request [] (test_env [4%nat]) 0%nat
           (mk_call 4%nat (Some Background) None)
           (mk_call 5%nat (Some (WithValue Background "m1" "m1")) None)
           (attach "m1" "m1") eq_refl eq_refl (fun _ _ => eq_refl)).
Defined.


End MoreWitnesses.

(** ** Starting the server: what has happened when [serve] returns *)

Section StartupMoreFacts.
Import Http App Utils Logging Startup.
Variable banner : string.
Variable Executable : string * option error.
Variable filepath_Dir : string -> string.
Variable Chdir : string -> string -> error + string.
Variable listen_result : listen_call -> string -> error.

(** X16. Once the change of directory has succeeded: [Serve] and
    [ServeTLS] print the banner and one line with the address, start
    listening and return what the server returns; the address printed
    after "0.0.0.0:" is the text ":port". Called with one file name, or
    with more than two, [serve] returns "invalid server configuration
    detected" without listening, but the directory is changed and the
    banner printed all the same. *)
Theorem serve_after_chdir
  (c : Cherry) (p : process) (dir : string)
  (Hdir : Chdir (cwd p) (filepath_Dir Executable.1) = inr dir) :
  let started :=
    (events p ++ [EvChdir dir; EvWrite (Output c) (Colorize ColorRed banner +:+ LF)]) in
  (forall port,
      Serve banner Executable filepath_Dir Chdir listen_result c port p
      = (mk_process dir
           (started ++
            [EvWrite (Output c)
               ("Cherry" +:+ cherries +:+ " listening on 0.0.0.0:"
                +:+ (":" +:+ pretty port) +:+ LF);
             EvListen (ListenAndServe (":" +:+ pretty port))]),
         listen_result (ListenAndServe (":" +:+ pretty port)) dir)) /\
  (forall port cert key,
      ServeTLS banner Executable filepath_Dir Chdir listen_result c port cert key p
      = (mk_process dir
           (started ++
            [EvWrite (Output c)
               ("Cherry" +:+ cherries +:+ " listening TLS on 0.0.0.0:"
                +:+ (":" +:+ pretty port) +:+ LF);
             EvListen (ListenAndServeTLS (":" +:+ pretty port) cert key)]),
         listen_result (ListenAndServeTLS (":" +:+ pretty port) cert key) dir)) /\
  (forall addr files,
      length files <> 0%nat -> length files <> 2%nat ->
      serve banner Executable filepath_Dir Chdir listen_result c addr files p
      = (mk_process dir started,
         errors_New "invalid server configuration detected")).
Proof.
  cbv zeta. unfold Serve, ServeTLS, serve, port_addr, emit.
  destruct Executable as [packagePath ?]. simpl in *. rewrite Hdir. simpl.
  split; [|split].
  - intros port. by rewrite <- !app_assoc.
  - intros port cert key. by rewrite <- !app_assoc.
  - intros addr [|f1 [|f2 [|f3 files]]] H0 H2; simpl in *; try done;
      by rewrite <- !app_assoc.
Qed.

End StartupMoreFacts.

Section StartupMoreWitness.
Import Http App Utils Logging Startup.

Lemma serve_after_chdir_witness :
  serve "BANNER" ("/opt/cherry/app", None) Fixtures.Dir_simple Fixtures.Chdir_simple
        (fun _ _ => errors_New "server stopped gracefully")
        (New 0%nat) ":3000" ["cert.pem"] (mk_process "/home" [])
  = (mk_process "/opt/cherry"
       ([] ++ [EvChdir "/opt/cherry";
               EvWrite (Output (New 0%nat)) (Colorize ColorRed "BANNER" +:+ LF)]),
     errors_New "invalid server configuration detected").
Proof.
  exact (proj2 (proj2 (serve_after_chdir "BANNER" ("/opt/cherry/app", None)
                         Fixtures.Dir_simple Fixtures.Chdir_simple
                         (fun _ _ => errors_New "server stopped gracefully")
                         (New 0%nat) (mk_process "/home" []) "/opt/cherry" eq_refl))
           ":3000" ["cert.pem"] ltac:(discriminate) ltac:(discriminate)).
Defined.

End StartupMoreWitness.

(** ** Middleware registered after the route *)

Section LateMiddlewareFacts.
Import Http Slices App SliceInv.
Context {W : Type} `{ResponseWriter W} {U : Type}.
Variable code :
  Handler -> Context (W := W) -> Env (U := U) ->
  (Context (W := W) * Env (U := U)) * option error.
Variable error_code :
  nat -> Context (W := W) -> error -> Env (U := U) ->
  (Context (W := W) * Env (U := U)).
Variable grow : nat -> nat -> nat.
Hypothesis grow_fits : grows grow.



End LateMiddlewareFacts.

Section LateMiddlewareWitness.
Import Http Slices App SliceInv Fixtures Facades.


End LateMiddlewareWitness.
